(** * Ledger engine of the crypto wallet simulator: model and properties

    A shallow embedding of the Python ledger engine
    ([domain/model.py], [domain/exceptions.py], [adapters/persistence.py],
    [adapters/consensus.py], [service_layer/services.py]).

    Conventions of the embedding.
    - A Python [str] and the [bytes] obtained from it by [.encode()] are both
      the Rocq [string] of its UTF-8 bytes, so [.encode()] is the identity.
    - A Python [int] is a [Z].
    - [hashlib.sha256] is a library function: it is a class field
      ([sha256_digest]), and [hexdigest] is the lowercase hex of the digest.
    - Amounts are Python numbers (annotated [float]; an [int] or a
      [float]): they are kept abstract behind the class [PyNumber], which
      offers the operations the code applies to them ([sum], formatting)
      and tells which number an amount is ([num_value]) where it meets a
      [float].
    - A Python [float] is an IEEE binary64 number in the encoding of
      [SpecFloat]; [0.0 + x] converts an [int] operand, rounding to nearest
      with ties to even, and raises [OverflowError] when it is too large.
    - A Python [dict] is an insertion-ordered association list ([pydict]).
    - Methods that read or mutate the repository run in the monad [M], which
      threads the repository and ends in a returned value, a raised
      exception, or exhausted fuel (the unbounded proof-of-work search).
    - [time.time()] is an input ([now]) of the operations that read it. *)

From Stdlib Require Import ZArith List String Ascii Bool Lia Arith.
From Stdlib Require Import DecimalString DecimalZ SpecFloat.
From Equations Require Import Equations.
Import ListNotations.

Local Open Scope string_scope.
Local Open Scope Z_scope.

(** ** Python primitives *)

(** [str(n)] / [f"{n}"] for an [int]. *)
Definition str_of_int (n : Z) : string :=
  NilZero.string_of_int (Z.to_int n).

(** [f"{x}"] for an [Optional[str]]. *)
Definition str_of_opt (o : option string) : string :=
  match o with
  | Some s => s
  | None => "None"
  end.

Fixpoint str_repeat (s : string) (n : nat) : string :=
  match n with
  | O => ""
  | S n' => s ++ str_repeat s n'
  end.

(** [s * n]: the empty string when [n <= 0]. *)
Definition str_mul (s : string) (n : Z) : string :=
  str_repeat s (Z.to_nat n).

(** [h.startswith(target)]. *)
Definition startswith (h target : string) : bool :=
  String.prefix target h.

(** [sep.join(parts)]. *)
Definition str_join (sep : string) (parts : list string) : string :=
  String.concat sep parts.

Definition hex_digit (n : nat) : ascii :=
  match n with
  | 0 => "0" | 1 => "1" | 2 => "2" | 3 => "3" | 4 => "4" | 5 => "5"
  | 6 => "6" | 7 => "7" | 8 => "8" | 9 => "9" | 10 => "a" | 11 => "b"
  | 12 => "c" | 13 => "d" | 14 => "e" | _ => "f"
  end%nat%char.

(** [bytes.hex()]. *)
Fixpoint hex_of_bytes (b : string) : string :=
  match b with
  | EmptyString => EmptyString
  | String c r =>
      let n := nat_of_ascii c in
      String (hex_digit (n / 16)) (String (hex_digit (n mod 16)) (hex_of_bytes r))
  end.

(** [l[i]] on a list: a negative index counts from the end; [None] stands for
    [IndexError]. *)
Definition list_getitem {A : Type} (l : list A) (i : Z) : option A :=
  if 0 <=? i then nth_error l (Z.to_nat i)
  else if 0 <=? Z.of_nat (List.length l) + i
       then nth_error l (Z.to_nat (Z.of_nat (List.length l) + i))
       else None.

(** [enumerate(l)], counting from [start]. *)
Fixpoint enumerate_from {A : Type} (start : Z) (l : list A) : list (Z * A) :=
  match l with
  | [] => []
  | x :: r => (start, x) :: enumerate_from (start + 1) r
  end.

Definition enumerate {A : Type} (l : list A) : list (Z * A) :=
  enumerate_from 0 l.

(** [range(0, n, 2)]. *)
Definition range_step2 (n : nat) : list Z :=
  map (fun k => 2 * Z.of_nat k) (seq 0 (Nat.div2 (n + 1))).

(** ** Insertion-ordered dictionaries *)

Class PyKey (K : Type) := key_eq_dec : forall x y : K, {x = y} + {x <> y}.

#[export] Instance PyKey_string : PyKey string := string_dec.
#[export] Instance PyKey_Z : PyKey Z := Z.eq_dec.

Section Dict.
Context {K V : Type} `{PyKey K}.

Definition pydict : Type := list (K * V).

(** [d.get(k)]. *)
Fixpoint dict_get (d : pydict) (k : K) : option V :=
  match d with
  | [] => None
  | (k', v) :: r => if key_eq_dec k k' then Some v else dict_get r k
  end.

(** [k in d]. *)
Definition dict_contains (d : pydict) (k : K) : bool :=
  match dict_get d k with
  | Some _ => true
  | None => false
  end.

(** [d[k] = v]: an existing key keeps its position, a new key goes last. *)
Fixpoint dict_setitem (d : pydict) (k : K) (v : V) : pydict :=
  match d with
  | [] => [(k, v)]
  | (k', v') :: r =>
      if key_eq_dec k k' then (k, v) :: r
      else (k', v') :: dict_setitem r k v
  end.

Fixpoint dict_drop (d : pydict) (k : K) : pydict :=
  match d with
  | [] => []
  | (k', v') :: r =>
      if key_eq_dec k k' then dict_drop r k
      else (k', v') :: dict_drop r k
  end.

(** [del d[k]]: [None] stands for [KeyError]. *)
Definition dict_delitem (d : pydict) (k : K) : option pydict :=
  if dict_contains d k then Some (dict_drop d k) else None.

(** [d.values()]. *)
Definition dict_values (d : pydict) : list V := map snd d.

Definition dict_keys (d : pydict) : list K := map fst d.

(** Keys of a dictionary are pairwise distinct. *)
Definition dict_wf (d : pydict) : Prop := NoDup (dict_keys d).
End Dict.

Arguments pydict : clear implicits.

(** ** Numbers and hashing *)

(** A Python number as the [float] operators meet it: an [int], or a
    [float]. *)
Inductive PyNum :=
| PyInt (n : Z)
| PyFloat (x : spec_float).

(** The literal [0.0]. *)
Definition float_zero : spec_float := S754_zero false.

(** The conversion that [float.__add__] applies to an [int] operand: the
    nearest float, ties to even; [None] stands for the [OverflowError] of
    an [int] too large for a float. *)
Definition float_of_int (n : Z) : option spec_float :=
  match binary_normalize 53 1024 n 0 false with
  | S754_infinity _ => None
  | x => Some x
  end.

(** [total + x] for a float [total]; [None] stands for [OverflowError]. *)
Definition float_iadd (total : spec_float) (x : PyNum) : option spec_float :=
  match x with
  | PyInt n =>
      match float_of_int n with
      | Some y => Some (SFadd 53 1024 total y)
      | None => None
      end
  | PyFloat y => Some (SFadd 53 1024 total y)
  end.

(** The order between a float and an [int], which Python decides on the
    exact values, without converting the [int]; a NaN is unordered. *)
Definition float_compare_int (x : spec_float) (n : Z) : option comparison :=
  match x with
  | S754_nan => None
  | S754_infinity s => Some (if s then Lt else Gt)
  | S754_zero _ => Some (0 ?= n)
  | S754_finite s m e =>
      let v := cond_Zopp s (Zpos m) in
      Some (if 0 <=? e then v * 2 ^ e ?= n else v ?= n * 2 ^ (- e))
  end.

Definition float_compare (x : spec_float) (y : PyNum) : option comparison :=
  match y with
  | PyInt n => float_compare_int x n
  | PyFloat y => SFcompare x y
  end.

(** [x >= y] for a float [x]. *)
Definition float_ge (x : spec_float) (y : PyNum) : bool :=
  match float_compare x y with
  | Some Gt | Some Eq => true
  | _ => false
  end.

(** [x < y] for a float [x]. *)
Definition float_lt (x : spec_float) (y : PyNum) : bool :=
  match float_compare x y with
  | Some Lt => true
  | _ => false
  end.

(** The integers that a float holds exactly, as far as they are used
    here: the non-negative ones below [2^53]. *)
Definition small (n : Z) : Prop := 0 <= n < 2 ^ 53.

(** [m * 2^k] on positive numbers. *)
Definition pshl (m : positive) (k : nat) : positive := Nat.iter k xO m.

(** The number of binary digits of [m]. *)
Definition ndigits (m : positive) : nat := Pos.to_nat (digits2_pos m).

(** The float whose value is the positive integer [m] of at most 53
    digits: the mantissa is [m] shifted to 53 digits. *)
Definition canon (m : positive) : spec_float :=
  S754_finite false (pshl m (53 - ndigits m)) (Z.of_nat (ndigits m) - 53).

(** The float whose value is the small integer [n]. *)
Definition small_float (n : Z) : spec_float :=
  match n with
  | Zpos m => canon m
  | _ => S754_zero false
  end.

(** What the code does with an amount: [sum] adds amounts from the [int]
    zero, an f-string formats one, and a [float] operator ([total += x],
    [total >= x], [total < x]) finds a number in it, [num_value]. The
    amounts of one store are of one kind, so that [sum] raises nothing. *)
Class PyNumber (A : Type) := {
  num_zero : A;
  num_add : A -> A -> A;
  num_str : A -> string;
  num_value : A -> PyNum
}.

(** [hashlib.sha256(b).digest()]. *)
Class Sha256 := sha256_digest : string -> string.

(** [hashlib.sha256(b).hexdigest()]. *)
Definition sha256_hexdigest `{Sha256} (b : string) : string :=
  hex_of_bytes (sha256_digest b).

(** [sum(xs)]: starts from [0] and adds from the left. *)
Definition py_sum {A : Type} `{PyNumber A} (xs : list A) : A :=
  fold_left num_add xs num_zero.

(** Instances used to run the model on concrete inputs. *)
Definition Z_PyNumber : PyNumber Z := {|
  num_zero := 0;
  num_add := Z.add;
  num_str := str_of_int;
  num_value := PyInt
|}.

Fixpoint byte_sum (s : string) : nat :=
  match s with
  | EmptyString => O
  | String c r => (nat_of_ascii c + byte_sum r)%nat
  end.

(** A one-byte checksum standing in for the digest function. *)
Definition checksum_Sha256 : Sha256 :=
  fun s => String (ascii_of_nat (byte_sum s mod 256)) EmptyString.

(** ** Ledger entities ([domain/model.py]) *)

Section Ledger.
Context `{Sha256} {amount : Type} `{PyNumber amount}.

Record Address := { hash : string }.

(** [Address.__eq__]: by the hash string. *)
Definition Address_eq (a b : Address) : bool := String.eqb (hash a) (hash b).

(** [Address.from_public_key]. *)
Definition from_public_key (public_key : string) : Address :=
  {| hash := sha256_hexdigest public_key |}.

(** The [tx_id] of a [UTXO] is whatever [Transaction.tx_id] was when the
    output was mined, so it is optional as well. *)
Record UTXO := {
  utxo_tx_id : option string;
  utxo_output_index : Z;
  utxo_amount : amount;
  owner_address : Address;
  utxo_lock_script : option string
}.

Definition is_spendable_by (u : UTXO) (a : Address) : bool :=
  Address_eq (owner_address u) a.

(** [prev_tx_id] is copied from a UTXO's [tx_id] by [create_transaction]. *)
Record TxIn := {
  prev_tx_id : option string;
  output_index : Z;
  signature_script : option string
}.

(** The key format ["{tx_id}:{index}"] shared by [TxIn.reference_key],
    [get_utxo], [add_utxo] and the mining services. *)
Definition utxo_key (tx_id : option string) (index : Z) : string :=
  str_of_opt tx_id ++ ":" ++ str_of_int index.

Definition reference_key (i : TxIn) : string :=
  utxo_key (prev_tx_id i) (output_index i).

Record TxOut := {
  out_amount : amount;
  address : Address;
  lock_script : option string
}.

Record Transaction := {
  tx_id : option string;
  inputs : list TxIn;
  outputs : list TxOut;
  signatures : pydict Z string
}.

Definition Transaction_calculate_hash (tx : Transaction) : string :=
  let parts :=
    List.app
      (map reference_key (inputs tx))
      (map (fun o => num_str (out_amount o) ++ ":" ++ hash (address o))
           (outputs tx)) in
  sha256_hexdigest (str_join "|" parts).

(** What a [key_lookup] callback does on one input: it returns a secret or
    [None]; or it raises an exception [e] of a class under [Exception],
    with [str(e) = msg]; or it raises one of a class outside [Exception]
    ([KeyboardInterrupt], [SystemExit], [GeneratorExit], or another class
    derived from [BaseException] alone), of which [name] is kept. *)
Inductive lookup_result :=
| LookupReturn (secret : option string)
| LookupRaise (msg : string)
| LookupAbort (name : string).

(** An exception on its way out of [Transaction.verify]. *)
Inductive raised :=
| RaisedException (msg : string)
| RaisedOutsideException (name : string).

(** The loop of [Transaction.verify] over [enumerate(self.inputs)];
    [inr r] is an exception escaping from the callback. *)
Fixpoint verify_loop (sigs : pydict Z string) (tx_hash : string)
    (key_lookup : TxIn -> lookup_result) (l : list (Z * TxIn))
    : bool + raised :=
  match l with
  | [] => inl true
  | (idx, inp) :: rest =>
      match dict_get sigs idx with
      | None => inl false
      | Some sig =>
          match key_lookup inp with
          | LookupRaise msg => inr (RaisedException msg)
          | LookupAbort name => inr (RaisedOutsideException name)
          | LookupReturn None => inl false
          | LookupReturn (Some owner_priv) =>
              let expected := sha256_digest (owner_priv ++ tx_hash) in
              if String.eqb expected sig
              then verify_loop sigs tx_hash key_lookup rest
              else inl false
          end
      end
  end.

Definition Transaction_verify (tx : Transaction)
    (key_lookup : TxIn -> lookup_result) : bool + raised :=
  let tx_hash := Transaction_calculate_hash tx in
  verify_loop (signatures tx) tx_hash key_lookup (enumerate (inputs tx)).

Definition add_signature (tx : Transaction) (input_index : Z)
    (signature : string) : Transaction :=
  {| tx_id := tx_id tx; inputs := inputs tx; outputs := outputs tx;
     signatures := dict_setitem (signatures tx) input_index signature |}.

Record BlockHeader := {
  version : Z;
  prev_hash : string;
  merkle_root : string;
  timestamp : Z;
  nonce : Z;
  difficulty : Z;
  validator_id : option string
}.

Definition BlockHeader_calculate_hash (h : BlockHeader) : string :=
  sha256_hexdigest
    (str_of_int (version h) ++ ":" ++ prev_hash h ++ ":" ++ merkle_root h
     ++ ":" ++ str_of_int (timestamp h) ++ ":" ++ str_of_int (nonce h)
     ++ ":" ++ str_of_int (difficulty h) ++ ":"
     ++ str_of_opt (validator_id h)).

Definition set_merkle_root (h : BlockHeader) (r : string) : BlockHeader :=
  {| version := version h; prev_hash := prev_hash h; merkle_root := r;
     timestamp := timestamp h; nonce := nonce h;
     difficulty := difficulty h; validator_id := validator_id h |}.

Definition set_nonce (h : BlockHeader) (n : Z) : BlockHeader :=
  {| version := version h; prev_hash := prev_hash h;
     merkle_root := merkle_root h; timestamp := timestamp h; nonce := n;
     difficulty := difficulty h; validator_id := validator_id h |}.

Record Block := {
  header : BlockHeader;
  transactions : list Transaction
}.

(** ** Exceptions ([domain/exceptions.py]) and outcomes

    [InsufficientFundsException] carries its three fields; its message is a
    rendering of them and is left out. [required] is a sum of amounts;
    [available] is the [int] [0] or a [float] total. [BaseException name]
    is an exception of a class outside [Exception]. *)
Inductive PyException :=
| IndexError
| KeyError (key : string)
| OverflowError
| BaseException (name : string)
| InvalidSignatureException (message : string)
| InsufficientFundsException (addr : Address) (required : amount)
    (available : PyNum)
| DoubleSpendException (utxo : option UTXO) (message : string)
| InvalidTransactionException (transaction : Transaction) (message : string).

Inductive outcome (A : Type) :=
| Return (a : A)
| Raise (e : PyException)
| OutOfFuel.
Arguments Return {A} a.
Arguments Raise {A} e.
Arguments OutOfFuel {A}.

Definition obind {A B : Type} (c : outcome A) (k : A -> outcome B)
    : outcome B :=
  match c with
  | Return a => k a
  | Raise e => Raise e
  | OutOfFuel => OutOfFuel
  end.

(** A search that ran out of fuel has not returned. *)
Definition within_fuel {A : Type} (c : option A) : outcome A :=
  match c with
  | Some a => Return a
  | None => OutOfFuel
  end.

(** A list subscript, raising [IndexError]. *)
Definition index_or_raise {A : Type} (l : list A) (i : Z) : outcome A :=
  match list_getitem l i with
  | Some x => Return x
  | None => Raise IndexError
  end.

(** ** Merkle root ([Block.calculate_merkle_root])

    In the helpers of the loop, [None] stands for the [IndexError] of a
    list subscript; [Block_calculate_merkle_root] raises it. *)

(** [if len(tx_hashes) % 2 == 1: tx_hashes.append(tx_hashes[-1])]. *)
Definition pad_level (tx_hashes : list string) : option (list string) :=
  if Z.of_nat (List.length tx_hashes) mod 2 =? 1
  then match list_getitem tx_hashes (-1) with
       | Some x => Some (List.app tx_hashes [x])
       | None => None
       end
  else Some tx_hashes.

(** [sha256((tx_hashes[i] + tx_hashes[i+1]).encode()).hexdigest()]. *)
Definition hash_pair_at (tx_hashes : list string) (i : Z) : option string :=
  match list_getitem tx_hashes i, list_getitem tx_hashes (i + 1) with
  | Some a, Some b => Some (sha256_hexdigest (a ++ b))
  | _, _ => None
  end.

(** The [for i in range(0, len(tx_hashes), 2)] loop appending to
    [new_level]. *)
Fixpoint build_level (tx_hashes : list string) (idxs : list Z)
    (new_level : list string) : option (list string) :=
  match idxs with
  | [] => Some new_level
  | i :: rest =>
      match hash_pair_at tx_hashes i with
      | Some h => build_level tx_hashes rest (List.app new_level [h])
      | None => None
      end
  end.

(** One round of the [while] loop body. *)
Definition merkle_round (tx_hashes : list string) : option (list string) :=
  match pad_level tx_hashes with
  | Some padded => build_level padded (range_step2 (List.length padded)) []
  | None => None
  end.

Lemma build_level_length tx_hashes idxs acc new_level :
  build_level tx_hashes idxs acc = Some new_level ->
  List.length new_level = (List.length acc + List.length idxs)%nat.
Proof.
  revert acc; induction idxs as [|i rest IH]; intros acc; simpl.
  - intros [= <-]. lia.
  - destruct (hash_pair_at tx_hashes i) as [h|]; simpl; try discriminate.
    intros Hb. apply IH in Hb. rewrite Hb, length_app. simpl. lia.
Qed.

Lemma div2_succ_lt n : (2 <= n)%nat -> (Nat.div2 (n + 1) < n)%nat.
Proof.
  intros Hn. rewrite Nat.div2_div.
  pose proof (Nat.div_mod_eq (n + 1) 2) as Hd.
  pose proof (Nat.mod_upper_bound (n + 1) 2 ltac:(lia)). lia.
Qed.

Lemma merkle_round_length tx_hashes new_level :
  (1 <? Z.of_nat (List.length tx_hashes)) = true ->
  merkle_round tx_hashes = Some new_level ->
  (List.length new_level < List.length tx_hashes)%nat.
Proof.
  intros Hlen Hr. apply Z.ltb_lt in Hlen. unfold merkle_round, pad_level in Hr.
  destruct (Z.of_nat (List.length tx_hashes) mod 2 =? 1) eqn:Hodd.
  - destruct (list_getitem tx_hashes (-1)) as [x|]; simpl in Hr;
      try discriminate.
    apply build_level_length in Hr. simpl in Hr. rewrite Hr.
    unfold range_step2. rewrite length_map, length_seq, length_app. simpl.
    apply Z.eqb_eq in Hodd.
    assert (Hn : (3 <= List.length tx_hashes)%nat).
    { destruct tx_hashes as [|a [|b [|c r]]]; simpl in *; try lia.
      discriminate. }
    remember (List.length tx_hashes) as n.
    assert (Hk : exists k, n = (2 * k + 1)%nat).
    { exists (n / 2)%nat. 
      pose proof (Nat.div_mod_eq n 2).
      assert (n mod 2 = 1)%nat; [|lia].
      apply Nat2Z.inj. rewrite Nat2Z.inj_mod. exact Hodd. }
    destruct Hk as [k ->].
    rewrite Nat.div2_div.
    pose proof (Nat.div_mod_eq (2 * k + 1 + 1 + 1) 2) as Hd.
    pose proof (Nat.mod_upper_bound (2 * k + 1 + 1 + 1) 2 ltac:(lia)). lia.
  - simpl in Hr. apply build_level_length in Hr. simpl in Hr. rewrite Hr.
    unfold range_step2. rewrite length_map, length_seq.
    apply div2_succ_lt. lia.
Qed.

Definition inspect {A : Type} (a : A) : {b : A | a = b} :=
  exist _ a eq_refl.

(** The [while len(tx_hashes) > 1] loop and the final [tx_hashes[0]]. *)
Equations? merkle_loop (tx_hashes : list string) : option string
    by wf (List.length tx_hashes) lt :=
  merkle_loop tx_hashes with inspect (1 <? Z.of_nat (List.length tx_hashes)) := {
    | exist _ false _ => list_getitem tx_hashes 0
    | exist _ true Hlen with inspect (merkle_round tx_hashes) := {
        | exist _ (Some new_level) Hround => merkle_loop new_level
        | exist _ None _ => None } }.
Proof.
  eapply merkle_round_length; eauto.
Qed.

Definition Block_calculate_merkle_root (b : Block) : outcome string :=
  match transactions b with
  | [] => Return (sha256_hexdigest "")
  | _ :: _ =>
      match merkle_loop (map Transaction_calculate_hash (transactions b)) with
      | Some root => Return root
      | None => Raise IndexError
      end
  end.

Definition Block_verify (b : Block) : outcome bool :=
  obind (Block_calculate_merkle_root b) (fun r =>
  Return (String.eqb (merkle_root (header b)) r)).

(** ** The ledger store ([adapters/persistence.py]) *)

Record InMemoryLedgerRepository := {
  blocks : list Block;
  utxo_set : pydict string UTXO
}.

(** [InMemoryLedgerRepository.__init__]. *)
Definition new_repository : InMemoryLedgerRepository :=
  {| blocks := []; utxo_set := [] |}.

(** Computations on the repository: the mutations made before an exception
    is raised stay in the store, as in Python. *)
Definition M (A : Type) : Type :=
  InMemoryLedgerRepository -> outcome A * InMemoryLedgerRepository.

Definition ret {A : Type} (a : A) : M A := fun self => (Return a, self).

Definition bind {A B : Type} (c : M A) (k : A -> M B) : M B :=
  fun self =>
    match c self with
    | (Return a, self') => k a self'
    | (Raise e, self') => (Raise e, self')
    | (OutOfFuel, self') => (OutOfFuel, self')
    end.

Definition lift {A : Type} (c : outcome A) : M A := fun self => (c, self).

Definition read : M InMemoryLedgerRepository := fun self => (Return self, self).

Definition write (self' : InMemoryLedgerRepository) : M unit :=
  fun _ => (Return tt, self').

Notation "x <- c ;; k" := (bind c (fun x => k))
  (at level 61, c at next level, right associativity).
Notation "c ;; k" := (bind c (fun _ => k))
  (at level 61, right associativity).

(** A [for x in xs: body(x)] loop. *)
Fixpoint for_each {A : Type} (xs : list A) (body : A -> M unit) : M unit :=
  match xs with
  | [] => ret tt
  | x :: rest => body x ;; for_each rest body
  end.

Definition get_block (height : Z) : M (option Block) :=
  self <- read ;;
  if (0 <=? height) && (height <? Z.of_nat (List.length (blocks self)))
  then b <- lift (index_or_raise (blocks self) height) ;; ret (Some b)
  else ret None.

Definition get_latest_block : M (option Block) :=
  self <- read ;;
  match blocks self with
  | [] => ret None
  | _ :: _ => b <- lift (index_or_raise (blocks self) (-1)) ;; ret (Some b)
  end.

Definition add_block (block : Block) : M unit :=
  self <- read ;;
  write {| blocks := List.app (blocks self) [block];
           utxo_set := utxo_set self |}.

Definition get_utxo (tx_id : option string) (index : Z) : M (option UTXO) :=
  self <- read ;;
  ret (dict_get (utxo_set self) (utxo_key tx_id index)).

Definition add_utxo (utxo : UTXO) : M unit :=
  self <- read ;;
  let key := utxo_key (utxo_tx_id utxo) (utxo_output_index utxo) in
  write {| blocks := blocks self;
           utxo_set := dict_setitem (utxo_set self) key utxo |}.

Definition remove_utxo (utxo_key : string) : M unit :=
  self <- read ;;
  if dict_contains (utxo_set self) utxo_key
  then match dict_delitem (utxo_set self) utxo_key with
       | Some d => write {| blocks := blocks self; utxo_set := d |}
       | None => lift (Raise (KeyError utxo_key))
       end
  else ret tt.

Definition all_utxos : M (list UTXO) :=
  self <- read ;;
  ret (dict_values (utxo_set self)).

(** ** Proof of work ([adapters/consensus.py]) *)

Record ProofOfWorkAdapter := { pow_difficulty : Z }.

(** The digest tried for a nonce:
    [sha256(f"{prev_hash}{merkle_root}{nonce}{timestamp}".encode()).hexdigest()]. *)
Definition pow_digest (block_header : BlockHeader) (n : Z) : string :=
  sha256_hexdigest
    (prev_hash block_header ++ merkle_root block_header ++ str_of_int n
     ++ str_of_int (timestamp block_header)).

Definition pow_target (self : ProofOfWorkAdapter) : string :=
  str_mul "0" (Z.max 1 (pow_difficulty self)).

(** The [while True] search from nonce [n]; each unit of fuel pays for one
    iteration, and [None] means that the fuel ran out. *)
Fixpoint mine_loop (target : string) (block_header : BlockHeader)
    (fuel : nat) (n : Z) : option (string * BlockHeader) :=
  match fuel with
  | O => None
  | S fuel' =>
      let h := pow_digest block_header n in
      if startswith h target
      then Some (h, set_nonce block_header n)
      else mine_loop target block_header fuel' (n + 1)
  end.

(** [ProofOfWorkAdapter.mine]: the digest and the mutated header, or [None]
    when the fuel runs out before the search ends. *)
Definition mine (self : ProofOfWorkAdapter) (fuel : nat)
    (block_header : BlockHeader) : option (string * BlockHeader) :=
  mine_loop (pow_target self) block_header fuel 0.

(** ** Services ([service_layer/services.py]) *)

(** The accumulation loop of [create_transaction]: [total] is a float that
    starts at [0.0]; [total += u.amount] may raise [OverflowError];
    [required] is [sum(o.amount for o in outputs)]. *)
Fixpoint select_inputs (required : amount) (utxos : list UTXO)
    (inputs : list TxIn) (total : spec_float)
    : outcome (list TxIn * spec_float) :=
  match utxos with
  | [] => Return (inputs, total)
  | u :: rest =>
      let inputs' :=
        List.app inputs
          [{| prev_tx_id := utxo_tx_id u;
              output_index := utxo_output_index u;
              signature_script := None |}] in
      match float_iadd total (num_value (utxo_amount u)) with
      | None => Raise OverflowError
      | Some total' =>
          if float_ge total' (num_value required)
          then Return (inputs', total')
          else select_inputs required rest inputs' total'
      end
  end.

Definition create_transaction (from_address : Address)
    (outputs : list TxOut) : M Transaction :=
  all <- all_utxos ;;
  let utxos := filter (fun u => Address_eq (owner_address u) from_address) all in
  let required := py_sum (map out_amount outputs) in
  match utxos with
  | [] =>
      lift (Raise (InsufficientFundsException from_address required (PyInt 0)))
  | _ :: _ =>
      selected <- lift (select_inputs required utxos [] float_zero) ;;
      let '(inputs, total) := selected in
      if float_lt total (num_value required)
      then lift (Raise (InsufficientFundsException from_address required
                          (PyFloat total)))
      else
        let tx := {| tx_id := None; inputs := inputs; outputs := outputs;
                     signatures := [] |} in
        ret {| tx_id := Some (Transaction_calculate_hash tx);
               inputs := inputs; outputs := outputs; signatures := [] |}
  end.

(** [sign_transaction] mutates [tx]; the result is [tx] afterwards. *)
Definition sign_transaction (wallet_priv : string) (tx : Transaction)
    : Transaction :=
  let tx_hash := Transaction_calculate_hash tx in
  fold_left
    (fun t '(idx, _) => add_signature t idx (sha256_digest (wallet_priv ++ tx_hash)))
    (enumerate (inputs tx)) tx.

(** [except Exception as e] wraps the exceptions under [Exception]; the
    others leave as they are. *)
Definition verify_transaction (tx : Transaction)
    (key_lookup : TxIn -> lookup_result) : outcome bool :=
  match Transaction_verify tx key_lookup with
  | inl b => Return b
  | inr (RaisedException msg) =>
      Raise (InvalidTransactionException tx
               (if String.eqb msg "" then "Invalid transaction" else msg))
  | inr (RaisedOutsideException name) => Raise (BaseException name)
  end.

(** The UTXO update of one transaction in [mine_block]. *)
Definition apply_transaction (tx : Transaction) : M unit :=
  for_each (inputs tx) (fun inp =>
    remove_utxo (utxo_key (prev_tx_id inp) (output_index inp))) ;;
  for_each (enumerate (outputs tx)) (fun '(idx, out) =>
    add_utxo {| utxo_tx_id := tx_id tx; utxo_output_index := idx;
                utxo_amount := out_amount out;
                owner_address := address out;
                utxo_lock_script := None |}).

(** The header [mine_block] builds before sealing. *)
Definition candidate_header (pow : ProofOfWorkAdapter) (prev : option Block)
    (validator : string) (now : Z) : BlockHeader :=
  {| version := 1;
     prev_hash := match prev with
                  | Some b => BlockHeader_calculate_hash (header b)
                  | None => str_mul "0" 64
                  end;
     merkle_root := "";
     timestamp := now;
     nonce := 0;
     difficulty := pow_difficulty pow;
     validator_id := Some validator |}.

Definition mine_block (pow : ProofOfWorkAdapter) (now : Z) (fuel : nat)
    (transactions : list Transaction) (validator : string) : M Block :=
  prev <- get_latest_block ;;
  let header := candidate_header pow prev validator now in
  let block := {| header := header; transactions := transactions |} in
  root <- lift (Block_calculate_merkle_root block) ;;
  let header := set_merkle_root header root in
  sealed <- lift (within_fuel (mine pow fuel header)) ;;
  let block := {| header := snd sealed; transactions := transactions |} in
  add_block block ;;
  for_each transactions apply_transaction ;;
  ret block.

(** Key lookups that find the same secret for every input. *)
Definition constant_lookup (secret : string) : TxIn -> lookup_result :=
  fun _ => LookupReturn (Some secret).

(** ** The Merkle root as the specification describes it *)

(** "If the current level has an odd count, duplicate the last element." *)
Definition duplicate_last_if_odd (level : list string) : list string :=
  if Nat.odd (List.length level)
  then List.app level [last level ""]
  else level.

(** "Pair adjacent elements and hash the concatenation of their hex
    strings (left + right, no separator)." *)
Fixpoint pair_adjacent (level : list string) : list string :=
  match level with
  | l :: r :: rest =>
      sha256_hexdigest (l ++ r) :: pair_adjacent rest
  | _ => []
  end.

(** "Repeat until one element remains." *)
Inductive spec_reduce : list string -> string -> Prop :=
| spec_reduce_one (root : string) : spec_reduce [root] root
| spec_reduce_more (level : list string) (root : string) :
    (1 < List.length level)%nat ->
    spec_reduce (pair_adjacent (duplicate_last_if_odd level)) root ->
    spec_reduce level root.

Definition spec_merkle_root (txs : list Transaction) (root : string) : Prop :=
  match txs with
  | [] => root = sha256_hexdigest ""
  | _ :: _ => spec_reduce (map Transaction_calculate_hash txs) root
  end.

(** When is the loop of [verify] satisfied by entry [(idx, inp)]. *)
Definition input_passes (tx : Transaction)
    (key_lookup : TxIn -> lookup_result) (idx : Z) (inp : TxIn) : Prop :=
  exists secret,
    key_lookup inp = LookupReturn (Some secret)
    /\ dict_get (signatures tx) idx
       = Some (sha256_digest (secret ++ Transaction_calculate_hash tx)).

(** "The digest's hex representation starts with [d] consecutive ['0']
    characters." *)
Definition leading_zeros (d : Z) (h : string) : Prop :=
  forall i : nat, (i < Z.to_nat d)%nat -> String.get i h = Some "0"%char.

(** ** The UTXO update of [mine_block], on the dictionary alone *)

Definition with_utxos (self : InMemoryLedgerRepository)
    (d : pydict string UTXO) : InMemoryLedgerRepository :=
  {| blocks := blocks self; utxo_set := d |}.

(** The UTXO that [mine_block] builds for output [out] at position [idx]. *)
Definition output_utxo (tx : Transaction) (idx : Z) (out : TxOut) : UTXO :=
  {| utxo_tx_id := tx_id tx; utxo_output_index := idx;
     utxo_amount := out_amount out; owner_address := address out;
     utxo_lock_script := None |}.

Definition spend_inputs (ins : list TxIn) (d : pydict string UTXO)
    : pydict string UTXO :=
  fold_left (fun d inp => dict_drop d (reference_key inp)) ins d.

Definition create_outputs (tx : Transaction) (outs : list (Z * TxOut))
    (d : pydict string UTXO) : pydict string UTXO :=
  fold_left
    (fun d p => dict_setitem d (utxo_key (tx_id tx) (fst p))
                             (output_utxo tx (fst p) (snd p)))
    outs d.

Definition apply_to_utxos (tx : Transaction) (d : pydict string UTXO)
    : pydict string UTXO :=
  create_outputs tx (enumerate (outputs tx)) (spend_inputs (inputs tx) d).

(** The effect of one transaction on the UTXO set, by lookups: every output
    is present under its key; every input key that is not also the key of
    one of the outputs is absent; every other key is as before. *)
Definition tx_effect (tx : Transaction) (before after : pydict string UTXO)
    : Prop :=
  (forall i out,
      nth_error (outputs tx) i = Some out ->
      dict_get after (utxo_key (tx_id tx) (Z.of_nat i))
      = Some (output_utxo tx (Z.of_nat i) out))
  /\ (forall inp,
        In inp (inputs tx) ->
        (forall i, (i < List.length (outputs tx))%nat ->
                   reference_key inp <> utxo_key (tx_id tx) (Z.of_nat i)) ->
        dict_get after (reference_key inp) = None)
  /\ (forall k,
        (forall inp, In inp (inputs tx) -> k <> reference_key inp) ->
        (forall i, (i < List.length (outputs tx))%nat ->
                   k <> utxo_key (tx_id tx) (Z.of_nat i)) ->
        dict_get after k = dict_get before k).

(** The effects of a list of transactions, one after the other. *)
Inductive txs_effect
    : list Transaction -> pydict string UTXO -> pydict string UTXO -> Prop :=
| txs_effect_nil (d : pydict string UTXO) : txs_effect [] d d
| txs_effect_cons (tx : Transaction) (txs : list Transaction)
    (d0 d1 d2 : pydict string UTXO) :
    tx_effect tx d0 d1 -> txs_effect txs d1 d2 ->
    txs_effect (tx :: txs) d0 d2.

(** The chain tip: the last stored block, if any. *)
Definition latest_block (self : InMemoryLedgerRepository) : option Block :=
  last (map Some (blocks self)) None.

(** The header handed to the sealing search: the candidate header with the
    Merkle root filled in. *)
Definition sealing_header (pow : ProofOfWorkAdapter)
    (self : InMemoryLedgerRepository) (validator : string) (now : Z)
    (root : string) : BlockHeader :=
  set_merkle_root (candidate_header pow (latest_block self) validator now) root.

(** ** The selection of [create_transaction], by prefixes *)

(** The sender's live UTXOs, in store-iteration order. *)
Definition sender_utxos (self : InMemoryLedgerRepository)
    (from_address : Address) : list UTXO :=
  filter (fun u => Address_eq (owner_address u) from_address)
         (dict_values (utxo_set self)).

(** The input that references a UTXO. *)
Definition txin_of (u : UTXO) : TxIn :=
  {| prev_tx_id := utxo_tx_id u; output_index := utxo_output_index u;
     signature_script := None |}.

(** The amounts of [utxos] added one by one onto [total], as [sum] does. *)
Definition accumulate (total : amount) (utxos : list UTXO) : amount :=
  fold_left num_add (map utxo_amount utxos) total.

(** The float [total] after the amounts of [utxos] were added to it one by
    one; [None] when one of the additions raises [OverflowError]. *)
Fixpoint float_accumulate (total : spec_float) (utxos : list UTXO)
    : option spec_float :=
  match utxos with
  | [] => Some total
  | u :: rest =>
      match float_iadd total (num_value (utxo_amount u)) with
      | Some total' => float_accumulate total' rest
      | None => None
      end
  end.

(** The running total after the first [m] of [utxos], from [0.0]. *)
Definition running_total (utxos : list UTXO) (m : nat) : option spec_float :=
  float_accumulate float_zero (firstn m utxos).

(** After the first [m] of [utxos] the running total is there and is not
    [>= required]. *)
Definition short_after (required : amount) (utxos : list UTXO) (m : nat)
    : Prop :=
  exists t, running_total utxos m = Some t
            /\ float_ge t (num_value required) = false.

(** The loop goes through the first [n] of [utxos] and no further: the
    running total is short of [required] after each of the first [n - 1],
    and [n] is the whole list unless the running total after [n] is
    [>= required] or the [n]-th addition raises. *)
Definition loop_ends_after (required : amount) (utxos : list UTXO) (n : nat)
    : Prop :=
  (1 <= n <= List.length utxos)%nat
  /\ (forall m, (1 <= m < n)%nat -> short_after required utxos m)
  /\ ((n < List.length utxos)%nat -> ~ short_after required utxos n).


(** ** The rest of the domain and of the services *)

(** [Block.add_transaction]. *)
Definition Block_add_transaction (b : Block) (tx : Transaction) : Block :=
  {| header := header b; transactions := List.app (transactions b) [tx] |}.

(** [WalletService.get_balance]. *)
Definition get_balance (address : Address) : M amount :=
  all <- all_utxos ;;
  let utxos := filter (fun u => Address_eq (owner_address u) address) all in
  ret (py_sum (map utxo_amount utxos)).

(** An entry of [WalletService._wallets]: the dictionary with the keys
    ["priv"], ["pub"] and ["address"]. *)
Record Wallet := {
  wallet_priv : string;
  wallet_pub : string;
  wallet_address : Address
}.

(** [WalletService.create_wallet]: the wallet returned and [_wallets]
    afterwards. *)
Definition create_wallet (wallets : pydict string Wallet) (name : string)
    : Wallet * pydict string Wallet :=
  let priv := sha256_hexdigest (name ++ "_priv") in
  let pub := sha256_hexdigest (priv ++ "_pub") in
  let w := {| wallet_priv := priv; wallet_pub := pub;
              wallet_address := from_public_key pub |} in
  (w, dict_setitem wallets name w).

(** [MockProofOfStakeAdapter]. *)
Record MockProofOfStakeAdapter := { validators : list string }.

Definition validate_block (self : MockProofOfStakeAdapter) (block : Block)
    : bool := true.

(** The header both [stake_block] functions start from. *)
Definition stake_header (prev_hash : string) (validator : string) (now : Z)
    : BlockHeader :=
  {| version := 1; prev_hash := prev_hash; merkle_root := "";
     timestamp := now; nonce := 0; difficulty := 0;
     validator_id := Some validator |}.

(** [MockProofOfStakeAdapter.stake_block]. *)
Definition adapter_stake_block (self : MockProofOfStakeAdapter) (now : Z)
    (transactions : list Transaction) (validator : string) : outcome Block :=
  let header := stake_header (str_mul "0" 64) validator now in
  let block := {| header := header; transactions := transactions |} in
  obind (Block_calculate_merkle_root block) (fun root =>
  Return {| header := set_merkle_root header root;
            transactions := transactions |}).

(** [StakingService.stake_block]. *)
Definition stake_block (now : Z) (transactions : list Transaction)
    (validator : string) : M Block :=
  prev <- get_latest_block ;;
  let prev_hash := match prev with
                   | Some b => BlockHeader_calculate_hash (header b)
                   | None => str_mul "0" 64
                   end in
  let header := stake_header prev_hash validator now in
  let block := {| header := header; transactions := transactions |} in
  root <- lift (Block_calculate_merkle_root block) ;;
  let block := {| header := set_merkle_root header root;
                  transactions := transactions |} in
  add_block block ;;
  for_each transactions apply_transaction ;;
  ret block.

(** ** An invariant of the store

    The keys of the UTXO dictionary are pairwise distinct and every UTXO is
    filed under the key made of its own [tx_id] and [output_index]. *)
Definition store_consistent (self : InMemoryLedgerRepository) : Prop :=
  dict_wf (utxo_set self)
  /\ (forall k u, In (k, u) (utxo_set self) ->
                  k = utxo_key (utxo_tx_id u) (utxo_output_index u)).

End Ledger.

Arguments Return {amount A} a.
Arguments Raise {amount A} e.
Arguments OutOfFuel {amount A}.

(** ** The message bus ([service_layer/message_bus.py])

    A handler is a callable: here it acts on a world [W] of its own and
    either completes or raises, having changed the world so far. Handlers
    that call back into the bus are outside this model. *)

Section MessageBus.
Context {W Ev : Type}.

Inductive handled :=
| Done (w : W)
| Failed (msg : string) (w : W).

Definition handler : Type := Ev -> W -> handled.

(** [MessageBus._handlers]. *)
Definition MessageBus : Type := pydict string (list handler).

(** [MessageBus.__init__]. *)
Definition new_bus : MessageBus := [].

(** [self._handlers.setdefault(event_type, []).append(handler)]. *)
Definition subscribe (self : MessageBus) (event_type : string) (h : handler)
    : MessageBus :=
  match dict_get self event_type with
  | Some hs => dict_setitem self event_type (List.app hs [h])
  | None => dict_setitem self event_type [h]
  end.

(** The [for handler in ...: handler(event)] loop. *)
Fixpoint run_handlers (hs : list handler) (event : Ev) (w : W) : handled :=
  match hs with
  | [] => Done w
  | h :: rest =>
      match h event w with
      | Done w' => run_handlers rest event w'
      | Failed msg w' => Failed msg w'
      end
  end.

(** [MessageBus.publish]: [self._handlers.get(event_type, [])]. *)
Definition publish (self : MessageBus) (event_type : string) (event : Ev)
    (w : W) : handled :=
  match dict_get self event_type with
  | Some hs => run_handlers hs event w
  | None => run_handlers [] event w
  end.
End MessageBus.

Arguments handled : clear implicits.
Arguments handler : clear implicits.
Arguments MessageBus : clear implicits.

(** ** The unit of work ([service_layer/unit_of_work.py])

    The repository handed to [InMemoryUoW] is any object with an [add]
    method: [R] is its state and [add] either returns the state after the
    item was added or raises with a message, leaving a state behind. *)

Section UnitOfWork.
Context {R Item : Type}.
Variable add : R -> Item -> R + (string * R).

Record InMemoryUoW := {
  uow_repo : option R;
  staged : list Item
}.

(** [InMemoryUoW.__init__]. *)
Definition new_uow (repo : option R) : InMemoryUoW :=
  {| uow_repo := repo; staged := [] |}.

(** [InMemoryUoW.stage]. *)
Definition stage (self : InMemoryUoW) (item : Item) : InMemoryUoW :=
  {| uow_repo := uow_repo self; staged := List.app (staged self) [item] |}.

(** [InMemoryUoW.rollback]. *)
Definition rollback (self : InMemoryUoW) : InMemoryUoW :=
  {| uow_repo := uow_repo self; staged := [] |}.

(** The [for item in self._staged: self.repo.add(item)] loop. *)
Fixpoint add_all (repo : R) (items : list Item) : R + (string * R) :=
  match items with
  | [] => inl repo
  | item :: rest =>
      match add repo item with
      | inl repo' => add_all repo' rest
      | inr failure => inr failure
      end
  end.

(** [InMemoryUoW.commit]: [inr msg] is the exception of a failing [add],
    which leaves before [self._staged.clear()]. *)
Definition commit (self : InMemoryUoW) : InMemoryUoW + (string * InMemoryUoW) :=
  match uow_repo self with
  | Some repo =>
      match add_all repo (staged self) with
      | inl repo' => inl {| uow_repo := Some repo'; staged := [] |}
      | inr (msg, repo') =>
          inr (msg, {| uow_repo := Some repo'; staged := staged self |})
      end
  | None => inl {| uow_repo := None; staged := [] |}
  end.

(** [AbstractUoW.__exit__]: [exc] tells whether the block raised. *)
Definition uow_exit (self : InMemoryUoW) (exc : bool)
    : InMemoryUoW + (string * InMemoryUoW) :=
  if exc then inl (rollback self) else commit self.
End UnitOfWork.

(** ** Concrete data for running the model

    Amounts are integers and the digest is [checksum_Sha256]. *)

Definition ex_alice : Address := {| hash := "alice" |}.
Definition ex_bob : Address := {| hash := "bob" |}.
Definition ex_carol : Address := {| hash := "carol" |}.

Definition ex_utxo (t : string) (i amt : Z) (owner : Address) : @UTXO Z :=
  {| utxo_tx_id := Some t; utxo_output_index := i; utxo_amount := amt;
     owner_address := owner; utxo_lock_script := None |}.

Definition ex_in (t : string) (i : Z) : TxIn :=
  {| prev_tx_id := Some t; output_index := i; signature_script := None |}.

Definition ex_out (amt : Z) (to : Address) : @TxOut Z :=
  {| out_amount := amt; address := to; lock_script := None |}.

(** A store holding one UTXO of 100 for alice and no block. *)
Definition ex_store : @InMemoryLedgerRepository Z :=
  {| blocks := []; utxo_set := [("t0:0", ex_utxo "t0" 0 100 ex_alice)] |}.

(** The transaction spending that UTXO into 60 for bob and 40 for carol. *)
Definition ex_spend : @Transaction Z :=
  {| tx_id := Some "t1"; inputs := [ex_in "t0" 0];
     outputs := [ex_out 60 ex_bob; ex_out 40 ex_carol]; signatures := [] |}.

(** The same spending by a transaction whose [tx_id] is that of the UTXO it
    spends. *)
Definition ex_respend : @Transaction Z :=
  {| tx_id := Some "t0"; inputs := [ex_in "t0" 0];
     outputs := [ex_out 60 ex_bob; ex_out 40 ex_carol]; signatures := [] |}.

(** A transaction whose two inputs reference the same UTXO key. *)
Definition ex_double_spend : @Transaction Z :=
  {| tx_id := Some "t2"; inputs := [ex_in "t0" 0; ex_in "t0" 0];
     outputs := [ex_out 100 ex_bob]; signatures := [] |}.

(** A store where alice owns 30, 50 and 40, in that order, and bob owns 7. *)
Definition ex_wallets : @InMemoryLedgerRepository Z :=
  {| blocks := [];
     utxo_set := [("a:0", ex_utxo "a" 0 30 ex_alice);
                  ("b:0", ex_utxo "b" 0 7 ex_bob);
                  ("a:1", ex_utxo "a" 1 50 ex_alice);
                  ("c:2", ex_utxo "c" 2 40 ex_alice)] |}.

(** The transaction that pays 70 to bob from alice's first two UTXOs. *)
Definition ex_pay : @Transaction Z :=
  {| tx_id := Some "63"; inputs := [ex_in "a" 0; ex_in "a" 1];
     outputs := [ex_out 70 ex_bob]; signatures := [] |}.



Definition ex_header : BlockHeader :=
  {| version := 1; prev_hash := "abmn"; merkle_root := "cd"; timestamp := 17;
     nonce := 0; difficulty := 2; validator_id := Some "v" |}.

(** A store holding two blocks without transactions. *)
Definition ex_chain : @InMemoryLedgerRepository Z :=
  {| blocks := [{| header := ex_header; transactions := [] |};
                {| header := set_nonce ex_header 5; transactions := [] |}];
     utxo_set := [] |}.

Definition ex_pow (d : Z) : ProofOfWorkAdapter := {| pow_difficulty := d |}.


(** A repository that is a list of numbers and whose [add] refuses zero. *)
Definition ex_add (repo : list nat) (item : nat) : list nat + (string * list nat) :=
  match item with
  | O => inr ("zero", repo)
  | S _ => inl (List.app repo [item])
  end.

(** * Properties *)

(** ** Dictionaries *)

Section DictFacts.
Context {K V : Type} `{PyKey K}.
Implicit Types (d : pydict K V) (k : K) (v : V).

Lemma dict_get_setitem_same d k v : dict_get (dict_setitem d k v) k = Some v.
Proof.
  induction d as [|[k' v'] r IH]; simpl.
  - destruct (key_eq_dec k k); congruence.
  - destruct (key_eq_dec k k') as [->|Hne]; simpl.
    + destruct (key_eq_dec k' k'); congruence.
    + destruct (key_eq_dec k k'); [contradiction|exact IH].
Qed.

Lemma dict_get_setitem_other d k k' v :
  k' <> k -> dict_get (dict_setitem d k v) k' = dict_get d k'.
Proof.
  intros Hne. induction d as [|[k0 v0] r IH]; simpl.
  - destruct (key_eq_dec k' k); [contradiction|reflexivity].
  - destruct (key_eq_dec k k0) as [->|Hk]; simpl.
    + destruct (key_eq_dec k' k0); [contradiction|reflexivity].
    + destruct (key_eq_dec k' k0); [reflexivity|exact IH].
Qed.

Lemma dict_get_drop_same d k : dict_get (dict_drop d k) k = None.
Proof.
  induction d as [|[k' v'] r IH]; simpl; [reflexivity|].
  destruct (key_eq_dec k k') as [->|Hne]; simpl; [exact IH|].
  destruct (key_eq_dec k k'); [contradiction|exact IH].
Qed.

Lemma dict_get_drop_other d k k' :
  k' <> k -> dict_get (dict_drop d k) k' = dict_get d k'.
Proof.
  intros Hne. induction d as [|[k0 v0] r IH]; simpl; [reflexivity|].
  destruct (key_eq_dec k k0) as [->|Hk]; simpl.
  - destruct (key_eq_dec k' k0); [contradiction|exact IH].
  - destruct (key_eq_dec k' k0); [reflexivity|exact IH].
Qed.

Lemma dict_drop_absent d k : dict_get d k = None -> dict_drop d k = d.
Proof.
  induction d as [|[k' v'] r IH]; simpl; [reflexivity|].
  destruct (key_eq_dec k k'); [discriminate|].
  intros Hg. rewrite IH; auto.
Qed.

Lemma dict_contains_false d k :
  dict_contains d k = false <-> dict_get d k = None.
Proof.
  unfold dict_contains. destruct (dict_get d k); split; congruence.
Qed.

Lemma dict_keys_drop_incl d k x :
  In x (dict_keys (dict_drop d k)) -> In x (dict_keys d).
Proof.
  induction d as [|[k' v'] r IH]; simpl; [tauto|].
  destruct (key_eq_dec k k'); simpl; intuition.
Qed.

Lemma dict_wf_drop d k : dict_wf d -> dict_wf (dict_drop d k).
Proof.
  unfold dict_wf. induction d as [|[k' v'] r IH]; simpl; [auto|].
  intros Hnd. inversion Hnd as [|? ? Hnin Hr]; subst.
  destruct (key_eq_dec k k'); simpl; [auto|].
  constructor; [|auto].
  intros Hin. apply Hnin. eapply dict_keys_drop_incl; eauto.
Qed.

Lemma dict_keys_setitem d k v x :
  In x (dict_keys (dict_setitem d k v)) -> x = k \/ In x (dict_keys d).
Proof.
  induction d as [|[k' v'] r IH]; simpl; [intuition|].
  destruct (key_eq_dec k k') as [->|Hne]; simpl; intuition.
Qed.

Lemma dict_wf_setitem d k v : dict_wf d -> dict_wf (dict_setitem d k v).
Proof.
  unfold dict_wf. induction d as [|[k' v'] r IH]; simpl.
  - intros _. constructor; [simpl; tauto|constructor].
  - intros Hnd. inversion Hnd as [|? ? Hnin Hr]; subst.
    destruct (key_eq_dec k k') as [->|Hne]; simpl.
    + constructor; auto.
    + constructor; [|auto].
      intros Hin. apply dict_keys_setitem in Hin. destruct Hin; auto.
Qed.
End DictFacts.

Section Properties.
Context `{Sha256} {amount : Type} `{PyNumber amount}.

Implicit Types (self : @InMemoryLedgerRepository amount).
Implicit Types (tx : @Transaction amount) (txs : list (@Transaction amount)).
Implicit Types (blk : @Block amount) (hdr : BlockHeader).
Implicit Types (d : pydict string (@UTXO amount)).
Implicit Types (utxos : list (@UTXO amount)) (outs : list (@TxOut amount)).
Implicit Types (pow : ProofOfWorkAdapter) (ins : list TxIn).



(** ** Running the monad *)

Lemma list_getitem_nonneg {A : Type} (l : list A) (i : Z) :
  0 <= i -> list_getitem l i = nth_error l (Z.to_nat i).
Proof.
  intros Hi. unfold list_getitem.
  destruct (Z.leb_spec 0 i); [reflexivity|lia].
Qed.

Lemma list_getitem_last {A : Type} (l : list A) (x d : A) :
  list_getitem (List.app l [x]) (-1) = Some x
  /\ last (List.app l [x]) d = x.
Proof.
  split; [|apply last_last].
  unfold list_getitem. change (0 <=? -1) with false. cbv iota.
  rewrite length_app. simpl List.length.
  destruct (Z.leb_spec 0 (Z.of_nat (List.length l + 1) + -1)); [|lia].
  replace (Z.to_nat (Z.of_nat (List.length l + 1) + -1)) with (List.length l)
    by lia.
  rewrite nth_error_app2, Nat.sub_diag by lia. reflexivity.
Qed.

(** ** The ledger store *)

(** In range, [get_block] returns the block stored at that height. *)
Lemma get_block_in_range self height :
  0 <= height < Z.of_nat (List.length (blocks self)) ->
  exists b, nth_error (blocks self) (Z.to_nat height) = Some b
            /\ get_block height self = (Return (Some b), self).
Proof.
  intros [Hlo Hhi].
  destruct (nth_error (blocks self) (Z.to_nat height)) as [b|] eqn:Hb.
  - exists b. split; [reflexivity|].
    unfold get_block, bind, read, lift, ret, index_or_raise.
    destruct (Z.leb_spec 0 height); [|lia].
    destruct (Z.ltb_spec height (Z.of_nat (List.length (blocks self)))); [|lia].
    simpl. rewrite list_getitem_nonneg, Hb by lia. reflexivity.
  - apply nth_error_None in Hb. lia.
Qed.

(** C10: for every store and every height outside
    [0, number of stored blocks), negative heights included, [get_block]
    returns [None] and leaves the store as it was: the guard keeps a
    negative height from reaching the list subscript, which would count
    from the end of the chain. *)
Theorem get_block_out_of_range self height :
  ~ (0 <= height < Z.of_nat (List.length (blocks self))) ->
  get_block height self = (Return None, self).
Proof.
  intros Hout. unfold get_block, bind, read, ret.
  destruct (Z.leb_spec 0 height); simpl; [|reflexivity].
  destruct (Z.ltb_spec height (Z.of_nat (List.length (blocks self))));
    [lia|reflexivity].
Qed.

(** C8: [remove_utxo] always returns normally; on an absent key it leaves
    the store unchanged; after it the key is absent, and removing the key a
    second time changes nothing more. *)
Theorem remove_utxo_idempotent self key :
  exists self',
    remove_utxo key self = (Return tt, self')
    /\ (dict_contains (utxo_set self) key = false -> self' = self)
    /\ dict_get (utxo_set self') key = None
    /\ remove_utxo key self' = (Return tt, self').
Proof.
  unfold remove_utxo, bind, read, ret, write, dict_delitem.
  destruct (dict_contains (utxo_set self) key) eqn:Hin.
  - eexists. split; [reflexivity|]. simpl.
    split; [discriminate|]. split; [apply dict_get_drop_same|].
    assert (Hout : dict_contains (dict_drop (utxo_set self) key) key = false).
    { apply dict_contains_false, dict_get_drop_same. }
    rewrite Hout. reflexivity.
  - exists self. split; [reflexivity|]. split; [reflexivity|].
    split; [apply dict_contains_false; exact Hin|].
    rewrite Hin. reflexivity.
Qed.

(** ** Merkle root *)

Lemma odd_test (n : nat) : (Z.of_nat n mod 2 =? 1) = Nat.odd n.
Proof.
  destruct (Nat.odd n) eqn:Ho.
  - apply Nat.odd_spec in Ho. destruct Ho as [k ->].
    apply Z.eqb_eq. Z.div_mod_to_equations. lia.
  - assert (He : Nat.even n = true).
    { rewrite <- Nat.negb_odd, Ho. reflexivity. }
    apply Nat.even_spec in He. destruct He as [k ->].
    apply Z.eqb_neq. Z.div_mod_to_equations. lia.
Qed.

Lemma index_last (l : list string) :
  l <> [] -> list_getitem l (-1) = Some (last l "").
Proof.
  intros Hne. destruct (exists_last Hne) as [l' [x ->]].
  destruct (list_getitem_last l' x "") as [-> ->]. reflexivity.
Qed.

Lemma pad_level_spec (l : list string) :
  l <> [] -> pad_level l = Some (duplicate_last_if_odd l).
Proof.
  intros Hne. unfold pad_level, duplicate_last_if_odd.
  rewrite odd_test. destruct (Nat.odd (List.length l)); [|reflexivity].
  rewrite index_last by assumption. reflexivity.
Qed.

Lemma skipn_nth_cons {A : Type} (l : list A) (n : nat) :
  (n < List.length l)%nat ->
  exists a, nth_error l n = Some a /\ skipn n l = a :: skipn (S n) l.
Proof.
  revert n; induction l as [|x r IH]; intros n Hn; simpl in Hn; [lia|].
  destruct n as [|n].
  - exists x. split; reflexivity.
  - destruct (IH n ltac:(lia)) as [a [Ha Hs]]. exists a. split; [exact Ha|].
    simpl. exact Hs.
Qed.

Lemma hash_pair_at_spec (l : list string) (s : nat) :
  (2 * s + 2 <= List.length l)%nat ->
  exists a b,
    skipn (2 * s) l = a :: b :: skipn (2 * (S s)) l
    /\ hash_pair_at l (2 * Z.of_nat s) = Some (sha256_hexdigest (a ++ b)).
Proof.
  intros Hlen.
  destruct (skipn_nth_cons l (2 * s) ltac:(lia)) as [a [Ha Hsa]].
  destruct (skipn_nth_cons l (S (2 * s)) ltac:(lia)) as [b [Hb Hsb]].
  exists a, b. split.
  - rewrite Hsa, Hsb. repeat f_equal. lia.
  - unfold hash_pair_at.
    rewrite !list_getitem_nonneg by lia.
    replace (Z.to_nat (2 * Z.of_nat s)) with (2 * s)%nat by lia.
    replace (Z.to_nat (2 * Z.of_nat s + 1)) with (S (2 * s)) by lia.
    rewrite Ha, Hb. reflexivity.
Qed.

Lemma build_level_spec (l : list string) (n s : nat) (acc : list string) :
  (2 * (s + n) = List.length l)%nat ->
  build_level l (map (fun k => 2 * Z.of_nat k) (seq s n)) acc =
  Some (List.app acc (pair_adjacent (skipn (2 * s) l))).
Proof.
  revert s acc; induction n as [|n IH]; intros s acc Hlen.
  - simpl. rewrite skipn_all2 by lia. simpl. rewrite app_nil_r. reflexivity.
  - cbn [seq map build_level].
    destruct (hash_pair_at_spec l s ltac:(lia)) as [a [b [Hs Hh]]].
    rewrite Hh. rewrite IH by lia.
    rewrite Hs. cbn [pair_adjacent]. rewrite <- app_assoc. reflexivity.
Qed.

Lemma even_length_duplicate (l : list string) :
  Nat.even (List.length (duplicate_last_if_odd l)) = true.
Proof.
  unfold duplicate_last_if_odd. destruct (Nat.odd (List.length l)) eqn:Ho.
  - rewrite length_app. simpl. rewrite Nat.add_1_r, Nat.even_succ. exact Ho.
  - rewrite <- Nat.negb_odd, Ho. reflexivity.
Qed.

Lemma merkle_round_spec (l : list string) :
  l <> [] ->
  merkle_round l = Some (pair_adjacent (duplicate_last_if_odd l)).
Proof.
  intros Hne. unfold merkle_round. rewrite pad_level_spec by assumption.
  unfold range_step2.
  pose proof (even_length_duplicate l) as He.
  apply Nat.even_spec in He. destruct He as [k Hk].
  rewrite Hk. replace (Nat.div2 (2 * k + 1)) with k.
  - rewrite (build_level_spec _ k 0 []) by lia. reflexivity.
  - rewrite Nat.add_1_r, Nat.div2_succ_double. reflexivity.
Qed.

Lemma pair_adjacent_length (l : list string) (k : nat) :
  List.length l = (2 * k)%nat -> List.length (pair_adjacent l) = k.
Proof.
  revert l; induction k as [|k IH]; intros l Hl.
  - destruct l; [reflexivity|discriminate].
  - destruct l as [|a [|b r]]; simpl in Hl; try lia.
    simpl. f_equal. apply IH. lia.
Qed.

Lemma next_level_length (l : list string) :
  (2 <= List.length l)%nat ->
  (1 <= List.length (pair_adjacent (duplicate_last_if_odd l))
     < List.length l)%nat.
Proof.
  intros Hl. pose proof (even_length_duplicate l) as He.
  apply Nat.even_spec in He. destruct He as [k Hk].
  rewrite (pair_adjacent_length _ k Hk).
  unfold duplicate_last_if_odd in Hk.
  destruct (Nat.odd (List.length l)); [rewrite length_app in Hk; simpl in Hk|];
    lia.
Qed.

Lemma merkle_loop_one (x : string) : merkle_loop [x] = Some x.
Proof. reflexivity. Qed.

Lemma merkle_loop_more (l : list string) :
  (2 <= List.length l)%nat ->
  merkle_loop l = merkle_loop (pair_adjacent (duplicate_last_if_odd l)).
Proof.
  intros Hl. 
  assert (Hne : l <> []) by (destruct l; simpl in Hl; [lia|discriminate]).
  pose proof (merkle_round_spec l Hne) as Hr.
  funelim (merkle_loop l).
  - match goal with
    | e : (1 <? _) = false |- _ => pose proof (proj1 (Z.ltb_ge _ _) e); lia
    end.
  - congruence.
  - congruence.
Qed.

Lemma merkle_loop_refines (n : nat) :
  forall l : list string,
    (1 <= List.length l <= n)%nat ->
    exists root, merkle_loop l = Some root /\ spec_reduce l root.
Proof.
  induction n as [|n IH]; intros l Hl; [lia|].
  destruct l as [|x [|y r]]; [simpl in Hl; lia| |].
  - exists x. split; [apply merkle_loop_one|constructor].
  - set (l := x :: y :: r) in *.
    assert (Hl2 : (2 <= List.length l)%nat) by (simpl; lia).
    pose proof (next_level_length l Hl2) as Hnext.
    destruct (IH (pair_adjacent (duplicate_last_if_odd l)) ltac:(lia))
      as [root [Hrun Hspec]].
    exists root. split.
    + rewrite merkle_loop_more by exact Hl2. exact Hrun.
    + apply spec_reduce_more; [lia|exact Hspec].
Qed.

Lemma spec_reduce_deterministic (l : list string) (r1 r2 : string) :
  spec_reduce l r1 -> spec_reduce l r2 -> r1 = r2.
Proof.
  intros H1; revert r2.
  induction H1 as [x|l r1 Hlen _ IH]; intros r2 H2.
  - inversion H2 as [|? ? Hlen2 _]; subst; [reflexivity|simpl in Hlen2; lia].
  - inversion H2 as [|? ? _ Hnext]; subst; [simpl in Hlen; lia|].
    apply IH. exact Hnext.
Qed.

(** C2: [Block.calculate_merkle_root] returns (it raises nothing) and its
    result is the root the specification describes: the hash of the empty
    byte string for no transactions; otherwise the single element left
    after repeatedly duplicating the last hash of an odd level and hashing
    adjacent pairs, left then right. That root is unique. *)
Theorem calculate_merkle_root_refines_spec (b : Block) :
  exists root,
    Block_calculate_merkle_root b = Return root
    /\ spec_merkle_root (transactions b) root
    /\ (forall root', spec_merkle_root (transactions b) root' -> root' = root).
Proof.
  unfold Block_calculate_merkle_root, spec_merkle_root.
  destruct (transactions b) as [|t ts].
  - exists (sha256_hexdigest ""). auto.
  - set (hs := map Transaction_calculate_hash (t :: ts)).
    destruct (merkle_loop_refines (List.length hs) hs) as [root [Hrun Hspec]].
    { subst hs. simpl. lia. }
    exists root. split; [rewrite Hrun; reflexivity|]. split; [exact Hspec|].
    intros root' Hspec'. eapply spec_reduce_deterministic; eauto.
Qed.


(** ** Signing and verification *)

Section Signing.
Variable sig : string.

Let sign_step (t : @Transaction amount) (p : Z * TxIn) : @Transaction amount :=
  let '(idx, _) := p in add_signature t idx sig.

Lemma sign_fold_frame (l : list (Z * TxIn)) (t : @Transaction amount) :
  tx_id (fold_left sign_step l t) = tx_id t
  /\ inputs (fold_left sign_step l t) = inputs t
  /\ outputs (fold_left sign_step l t) = outputs t.
Proof.
  revert t; induction l as [|[idx inp] r IH]; intros t; simpl; [auto|].
  destruct (IH (add_signature t idx sig)) as [-> [-> ->]]. auto.
Qed.

Lemma sign_fold_keeps (l : list (Z * TxIn)) (t : @Transaction amount) (k : Z) :
  dict_get (signatures t) k = Some sig ->
  dict_get (signatures (fold_left sign_step l t)) k = Some sig.
Proof.
  revert t; induction l as [|[idx inp] r IH]; intros t Hk; simpl; [auto|].
  apply IH. simpl. destruct (Z.eq_dec k idx) as [->|Hne].
  - apply dict_get_setitem_same.
  - rewrite dict_get_setitem_other by exact Hne. exact Hk.
Qed.

Lemma sign_fold_signs (l : list (Z * TxIn)) (t : @Transaction amount) idx inp :
  In (idx, inp) l ->
  dict_get (signatures (fold_left sign_step l t)) idx = Some sig.
Proof.
  revert t; induction l as [|[idx' inp'] r IH]; intros t Hin; simpl;
    [contradiction|].
  destruct Hin as [[= -> ->]|Hin]; [|apply IH; exact Hin].
  apply sign_fold_keeps. simpl. apply dict_get_setitem_same.
Qed.
End Signing.

Lemma enumerate_from_In {A : Type} (l : list A) (start idx : Z) (x : A) :
  In (idx, x) (enumerate_from start l) ->
  start <= idx /\ nth_error l (Z.to_nat (idx - start)) = Some x.
Proof.
  revert start; induction l as [|y r IH]; intros start; simpl; [tauto|].
  intros [[= <- <-]|Hin].
  - rewrite Z.sub_diag. simpl. split; [lia|reflexivity].
  - apply IH in Hin. destruct Hin as [Hle Hnth]. split; [lia|].
    replace (Z.to_nat (idx - start)) with (S (Z.to_nat (idx - (start + 1))))
      by lia.
    exact Hnth.
Qed.

Lemma enumerate_from_nth {A : Type} (l : list A) (start : Z) (i : nat) (x : A) :
  nth_error l i = Some x -> In (start + Z.of_nat i, x) (enumerate_from start l).
Proof.
  revert start i; induction l as [|y r IH]; intros start i Hnth.
  - destruct i; discriminate.
  - destruct i as [|i]; simpl in *.
    + injection Hnth as ->. left. f_equal. lia.
    + right. replace (start + Z.pos (Pos.of_succ_nat i))
        with ((start + 1) + Z.of_nat i) by lia.
      apply IH. exact Hnth.
Qed.

Lemma sign_transaction_hash (s : string) (tx : Transaction) :
  Transaction_calculate_hash (sign_transaction s tx)
  = Transaction_calculate_hash tx.
Proof.
  unfold sign_transaction, Transaction_calculate_hash.
  destruct (sign_fold_frame
              (sha256_digest (s ++ Transaction_calculate_hash tx))
              (enumerate (inputs tx)) tx) as [_ [Hi Ho]].
  unfold Transaction_calculate_hash in Hi, Ho. rewrite Hi, Ho. reflexivity.
Qed.

Lemma verify_loop_true sigs tx_hash key_lookup (l : list (Z * TxIn)) :
  verify_loop sigs tx_hash key_lookup l = inl true <->
  (forall idx inp, In (idx, inp) l ->
     exists secret, key_lookup inp = LookupReturn (Some secret)
       /\ dict_get sigs idx = Some (sha256_digest (secret ++ tx_hash))).
Proof.
  induction l as [|[idx inp] r IH]; simpl.
  - split; [intros _ ? ? []|reflexivity].
  - split.
    + intros Hv idx' inp' [[= <- <-]|Hin].
      * destruct (dict_get sigs idx) as [sg|]; [|discriminate].
        destruct (key_lookup inp) as [[secret|]|msg|name]; try discriminate.
        destruct (String.eqb_spec (sha256_digest (secret ++ tx_hash)) sg);
          [|discriminate].
        exists secret. split; congruence.
      * destruct (dict_get sigs idx) as [sg|]; [|discriminate].
        destruct (key_lookup inp) as [[secret|]|msg|name]; try discriminate.
        destruct (String.eqb (sha256_digest (secret ++ tx_hash)) sg);
          [|discriminate].
        apply IH; assumption.
    + intros Hall.
      destruct (Hall idx inp (or_introl eq_refl)) as [secret [-> ->]].
      rewrite String.eqb_refl. apply IH.
      intros idx' inp' Hin. apply Hall. right. exact Hin.
Qed.

Lemma verify_loop_raise_origin sigs tx_hash key_lookup l (r : raised) :
  verify_loop sigs tx_hash key_lookup l = inr r ->
  exists inp,
    In inp (map snd l)
    /\ key_lookup inp = match r with
                        | RaisedException msg => LookupRaise msg
                        | RaisedOutsideException name => LookupAbort name
                        end.
Proof.
  induction l as [|[idx inp] rest IH]; simpl; [discriminate|].
  destruct (dict_get sigs idx) as [sg|]; [|discriminate].
  destruct (key_lookup inp) as [[secret|]|m|m] eqn:Hk; try discriminate.
  - destruct (String.eqb (sha256_digest (secret ++ tx_hash)) sg);
      [|discriminate].
    intros Hr. destruct (IH Hr) as [i [Hin Hi]]. exists i. auto.
  - intros [= <-]. exists inp. auto.
  - intros [= <-]. exists inp. auto.
Qed.

Lemma sign_transaction_inputs (s : string) (tx : Transaction) :
  inputs (sign_transaction s tx) = inputs tx.
Proof. unfold sign_transaction. apply sign_fold_frame. Qed.

(** After signing with [s], the loop of [verify] succeeds under lookups that
    find [s]. *)
Lemma signed_verify_loop tx s key_lookup :
  (forall inp, In inp (inputs tx) -> key_lookup inp = LookupReturn (Some s)) ->
  verify_loop (signatures (sign_transaction s tx))
              (Transaction_calculate_hash tx) key_lookup
              (enumerate (inputs tx)) = inl true.
Proof.
  intros Hlook. apply verify_loop_true. intros idx inp Hmem. exists s. split.
  - apply Hlook. apply enumerate_from_In in Hmem.
    destruct Hmem as [_ Hnth]. eapply nth_error_In; eauto.
  - unfold sign_transaction. eapply sign_fold_signs; eauto.
Qed.

(** C3: for every transaction [tx] and secret [s], right after
    [sign_transaction(s, tx)], [verify_transaction(tx, lookup)] returns
    true whenever [lookup] returns [s] for every input of [tx]. *)
Theorem sign_verify_round_trip tx s key_lookup :
  (forall inp, In inp (inputs tx) -> key_lookup inp = LookupReturn (Some s)) ->
  verify_transaction (sign_transaction s tx) key_lookup = Return true.
Proof.
  intros Hlook. unfold verify_transaction, Transaction_verify.
  rewrite sign_transaction_hash, sign_transaction_inputs.
  rewrite (signed_verify_loop tx s key_lookup Hlook).
  reflexivity.
Qed.

(** C6, as the code has it: verification makes no check on repeated
    reference keys. It never signals the double-spend condition, and it
    returns true exactly when every input index carries the signature
    expected from the secret that the lookup finds for that input, whether
    or not two inputs reference the same key. *)
Theorem verify_ignores_duplicate_references tx key_lookup :
  (forall u msg,
     verify_transaction tx key_lookup <> Raise (DoubleSpendException u msg))
  /\ (verify_transaction tx key_lookup = Return true <->
      forall i inp, nth_error (inputs tx) i = Some inp ->
                    input_passes tx key_lookup (Z.of_nat i) inp).
Proof.
  unfold verify_transaction, Transaction_verify. split.
  - intros u msg.
    destruct (verify_loop _ _ _ _) as [b|[m|m]]; discriminate.
  - split.
    + intros Hv i inp Hnth.
      destruct (verify_loop (signatures tx) (Transaction_calculate_hash tx)
                  key_lookup (enumerate (inputs tx))) as [b|[m|m]] eqn:Hl;
        [|discriminate|discriminate].
      injection Hv as ->.
      apply (proj1 (verify_loop_true _ _ _ _) Hl).
      apply (enumerate_from_nth (inputs tx) 0 i inp Hnth).
    + intros Hall.
      assert (Hl : verify_loop (signatures tx) (Transaction_calculate_hash tx)
                     key_lookup (enumerate (inputs tx)) = inl true).
      { apply verify_loop_true. intros idx inp Hmem.
        apply enumerate_from_In in Hmem. destruct Hmem as [Hle Hnth].
        specialize (Hall _ _ Hnth). rewrite Z.sub_0_r, Z2Nat.id in Hall by lia.
        exact Hall. }
      rewrite Hl. reflexivity.
Qed.

(** ** Proof of work *)

Lemma str_repeat_zero_succ (n : nat) :
  str_repeat "0" (S n) = String "0" (str_repeat "0" n).
Proof. reflexivity. Qed.

Lemma prefix_zeros (n : nat) (h : string) :
  String.prefix (str_repeat "0" n) h = true <->
  (forall i : nat, (i < n)%nat -> String.get i h = Some "0"%char).
Proof.
  revert h; induction n as [|n IH]; intros h.
  - simpl. split; [intros _ i Hi; lia|].
    intros _. destruct h; reflexivity.
  - rewrite str_repeat_zero_succ. destruct h as [|c r].
    + simpl. split; [discriminate|].
      intros Hall. specialize (Hall O ltac:(lia)). discriminate.
    + cbn [String.prefix]. destruct (ascii_dec "0" c) as [<-|Hne].
      * rewrite IH. split.
        -- intros Hall [|i] Hi; [reflexivity|]. simpl. apply Hall. lia.
        -- intros Hall i Hi. apply (Hall (S i)). lia.
      * split; [discriminate|].
        intros Hall. specialize (Hall O ltac:(lia)). simpl in Hall. congruence.
Qed.

Lemma startswith_target (pow : ProofOfWorkAdapter) (h : string) :
  startswith h (pow_target pow) = true <->
  leading_zeros (Z.max 1 (pow_difficulty pow)) h.
Proof. unfold startswith, pow_target, str_mul. apply prefix_zeros. Qed.

Lemma mine_loop_sound target hdr fuel n h hdr' :
  mine_loop target hdr fuel n = Some (h, hdr') ->
  exists m,
    n <= m < n + Z.of_nat fuel
    /\ h = pow_digest hdr m
    /\ hdr' = set_nonce hdr m
    /\ startswith h target = true
    /\ (forall k, n <= k < m -> startswith (pow_digest hdr k) target = false).
Proof.
  revert n; induction fuel as [|fuel IH]; intros n; [discriminate|].
  cbn [mine_loop].
  destruct (startswith (pow_digest hdr n) target) eqn:Hs.
  - intros [= <- <-]. exists n.
    split; [lia|]. split; [reflexivity|]. split; [reflexivity|].
    split; [exact Hs|]. intros k Hk. lia.
  - intros Hrun. destruct (IH _ Hrun) as [m [Hm [Hh [Hhdr [Hst Hmin]]]]].
    exists m.
    split; [lia|]. split; [exact Hh|]. split; [exact Hhdr|].
    split; [exact Hst|]. intros k Hk. destruct (Z.eq_dec k n) as [->|Hne]; [exact Hs|].
    apply Hmin. lia.
Qed.

Lemma mine_loop_complete target hdr m :
  startswith (pow_digest hdr m) target = true ->
  forall fuel n,
    n <= m < n + Z.of_nat fuel ->
    exists h hdr', mine_loop target hdr fuel n = Some (h, hdr').
Proof.
  intros Hm. induction fuel as [|fuel IH]; intros n Hn; [lia|].
  cbn [mine_loop].
  destruct (startswith (pow_digest hdr n) target) eqn:Hs; [eauto|].
  apply IH. destruct (Z.eq_dec n m) as [->|Hne]; [congruence|lia].
Qed.

(** C4: with a configured difficulty [d >= 1], whenever the sealing search
    returns, the returned value is the hex digest over [prev_hash],
    [merkle_root], the chosen nonce and [timestamp] concatenated in that
    order; it starts with [d] consecutive ['0'] characters; the header
    differs from the one given only in its nonce, which is the chosen one;
    and no smaller nonce [>= 0] has a digest with that prefix. The search
    does return once the fuel exceeds a nonce whose digest has the
    prefix. *)
Theorem mine_returns_least_nonce (pow : ProofOfWorkAdapter) (hdr : BlockHeader) :
  1 <= pow_difficulty pow ->
  (forall fuel h hdr',
      mine pow fuel hdr = Some (h, hdr') ->
      0 <= nonce hdr'
      /\ hdr' = set_nonce hdr (nonce hdr')
      /\ h = sha256_hexdigest
               (prev_hash hdr ++ merkle_root hdr ++ str_of_int (nonce hdr')
                ++ str_of_int (timestamp hdr))
      /\ leading_zeros (pow_difficulty pow) h
      /\ (forall k, 0 <= k < nonce hdr' ->
                    ~ leading_zeros (pow_difficulty pow) (pow_digest hdr k)))
  /\ (forall m fuel,
        0 <= m -> leading_zeros (pow_difficulty pow) (pow_digest hdr m) ->
        (Z.to_nat m < fuel)%nat ->
        exists h hdr', mine pow fuel hdr = Some (h, hdr')).
Proof.
  intros Hd.
  assert (Hmax : Z.max 1 (pow_difficulty pow) = pow_difficulty pow) by lia.
  split.
  - intros fuel h hdr' Hrun. unfold mine in Hrun.
    apply mine_loop_sound in Hrun.
    destruct Hrun as [m [Hm [Hh [Hhdr [Hst Hmin]]]]].
    assert (Hn : nonce hdr' = m) by (rewrite Hhdr; reflexivity).
    rewrite Hn. split; [lia|]. split; [exact Hhdr|]. split; [exact Hh|].
    split.
    + rewrite <- Hmax. apply startswith_target. exact Hst.
    + intros k Hk Hz. rewrite <- Hmax in Hz.
      apply startswith_target in Hz. rewrite Hmin in Hz by lia. discriminate.
  - intros m fuel Hm Hz Hfuel. unfold mine.
    apply (mine_loop_complete _ _ m); [|lia].
    apply startswith_target. rewrite Hmax. exact Hz.
Qed.

(** C9: with a configured difficulty [d <= 1] (zero and negative values
    included) the target is the single character ['0'], so the search runs
    exactly as with difficulty 1, and a digest it accepts starts with
    ['0']; a digest without that prefix is passed over even when the
    difficulty is 0. *)
Theorem mine_low_difficulty_as_one (pow : ProofOfWorkAdapter)
    (hdr : BlockHeader) (fuel : nat) :
  pow_difficulty pow <= 1 ->
  pow_target pow = "0"
  /\ mine pow fuel hdr = mine {| pow_difficulty := 1 |} fuel hdr
  /\ (forall h hdr', mine pow fuel hdr = Some (h, hdr') ->
                     String.get 0 h = Some "0"%char)
  /\ (String.get 0 (pow_digest hdr 0) <> Some "0"%char ->
      mine pow 1 hdr = None).
Proof.
  intros Hd.
  assert (Ht : pow_target pow = "0").
  { unfold pow_target. replace (Z.max 1 (pow_difficulty pow)) with 1 by lia.
    reflexivity. }
  split; [exact Ht|]. split; [|split].
  - unfold mine. rewrite Ht. reflexivity.
  - intros h hdr' Hrun. unfold mine in Hrun. apply mine_loop_sound in Hrun.
    destruct Hrun as [m [_ [_ [_ [Hst _]]]]].
    apply startswith_target in Hst. apply Hst. lia.
  - intros Hfirst. unfold mine. cbn [mine_loop].
    destruct (startswith (pow_digest hdr 0) (pow_target pow)) eqn:Hs;
      [|reflexivity].
    apply startswith_target in Hs. exfalso. apply Hfirst. apply Hs. lia.
Qed.

(** ** Mining *)

Lemma to_int_regular (n : Z) :
  Z.to_int n <> Decimal.Pos Decimal.Nil /\ Z.to_int n <> Decimal.Neg Decimal.Nil.
Proof.
  destruct n as [|p|p]; simpl; split; try discriminate;
    intros [= Hp]; exact (DecimalPos.Unsigned.to_uint_nonnil p Hp).
Qed.

Lemma str_of_int_inj (i j : Z) : str_of_int i = str_of_int j -> i = j.
Proof.
  unfold str_of_int. intros Heq.
  destruct (to_int_regular i) as [Hi1 Hi2].
  destruct (to_int_regular j) as [Hj1 Hj2].
  pose proof (NilZero.isi _ Hi1 Hi2) as Ei.
  pose proof (NilZero.isi _ Hj1 Hj2) as Ej.
  rewrite Heq in Ei. rewrite Ei in Ej. injection Ej as Ej.
  apply DecimalZ.to_int_inj. exact Ej.
Qed.

Lemma append_inv_head (s a b : string) : s ++ a = s ++ b -> a = b.
Proof. induction s as [|c s IH]; simpl; [auto|]. intros [= Hs]. auto. Qed.

(** Two positions of one transaction never share a key. *)
Lemma utxo_key_inj (t : option string) (i j : Z) :
  utxo_key t i = utxo_key t j -> i = j.
Proof.
  unfold utxo_key. intros Heq.
  apply append_inv_head, append_inv_head in Heq.
  apply str_of_int_inj. exact Heq.
Qed.

Lemma with_utxos_same self :
  with_utxos self (utxo_set self) = self.
Proof. destruct self; reflexivity. Qed.

Lemma remove_utxo_run key self :
  remove_utxo key self
  = (Return tt, with_utxos self (dict_drop (utxo_set self) key)).
Proof.
  unfold remove_utxo, bind, read, ret, write, dict_delitem.
  destruct (dict_contains (utxo_set self) key) eqn:Hin; [reflexivity|].
  apply dict_contains_false in Hin.
  rewrite dict_drop_absent, with_utxos_same by exact Hin. reflexivity.
Qed.

Lemma add_utxo_run u self :
  add_utxo u self
  = (Return tt,
     with_utxos self
       (dict_setitem (utxo_set self)
          (utxo_key (utxo_tx_id u) (utxo_output_index u)) u)).
Proof. reflexivity. Qed.

Lemma for_each_total {A : Type} (body : A -> M unit)
    (f : pydict string UTXO -> A -> pydict string UTXO) :
  (forall x self, body x self = (Return tt, with_utxos self (f (utxo_set self) x))) ->
  forall xs self,
    for_each xs body self
    = (Return tt, with_utxos self (fold_left f xs (utxo_set self))).
Proof.
  intros Hbody. induction xs as [|x r IH]; intros self.
  - simpl. unfold ret. rewrite with_utxos_same. reflexivity.
  - cbn [for_each fold_left]. unfold bind. rewrite Hbody, IH. reflexivity.
Qed.

Lemma apply_transaction_run tx self :
  apply_transaction tx self
  = (Return tt, with_utxos self (apply_to_utxos tx (utxo_set self))).
Proof.
  unfold apply_transaction, bind.
  rewrite (for_each_total _ (fun d inp => dict_drop d (reference_key inp))).
  - rewrite (for_each_total _
               (fun d p => dict_setitem d (utxo_key (tx_id tx) (fst p))
                             (output_utxo tx (fst p) (snd p)))).
    + reflexivity.
    + intros [idx out] s. apply add_utxo_run.
  - intros inp s. apply remove_utxo_run.
Qed.

Lemma get_latest_block_run self :
  get_latest_block self = (Return (latest_block self), self).
Proof.
  unfold get_latest_block, latest_block, bind, read, ret, lift.
  destruct (blocks self) as [|b r] eqn:Hb; [reflexivity|].
  assert (Hne : b :: r <> []) by discriminate.
  destruct (exists_last Hne) as [l' [x Hx]]. rewrite Hx.
  unfold index_or_raise.
  destruct (list_getitem_last l' x x) as [-> _].
  rewrite map_app. simpl. rewrite last_last. reflexivity.
Qed.

Lemma merkle_root_returns (b : Block) :
  exists root, Block_calculate_merkle_root b = Return root.
Proof.
  unfold Block_calculate_merkle_root. destruct (transactions b) as [|t ts].
  - eauto.
  - destruct (merkle_loop_refines
                (List.length (map Transaction_calculate_hash (t :: ts)))
                (map Transaction_calculate_hash (t :: ts)))
      as [root [Hrun _]]; [simpl; lia|].
    rewrite Hrun. eauto.
Qed.

(** What a call of [mine_block] does, by the outcome of the sealing
    search. *)
Lemma mine_block_run pow now fuel txs validator self :
  exists root,
    Block_calculate_merkle_root
      {| header := candidate_header pow (latest_block self) validator now;
         transactions := txs |} = Return root
    /\ mine_block pow now fuel txs validator self
       = match mine pow fuel (sealing_header pow self validator now root) with
         | Some sealed =>
             let blk := {| header := snd sealed; transactions := txs |} in
             (Return blk,
              {| blocks := List.app (blocks self) [blk];
                 utxo_set :=
                   fold_left (fun d tx => apply_to_utxos tx d) txs
                             (utxo_set self) |})
         | None => (OutOfFuel, self)
         end.
Proof.
  destruct (merkle_root_returns
              {| header := candidate_header pow (latest_block self) validator now;
                 transactions := txs |}) as [root Hroot].
  exists root. split; [exact Hroot|].
  unfold mine_block. unfold bind at 1. rewrite get_latest_block_run.
  unfold bind at 1. unfold lift at 1. rewrite Hroot.
  unfold bind at 1. unfold lift at 1. fold (sealing_header pow self validator now root).
  destruct (mine pow fuel (sealing_header pow self validator now root))
    as [sealed|]; try reflexivity.
  cbn [within_fuel]. unfold bind at 1. unfold add_block at 1. unfold bind at 1. unfold read, write.
  unfold bind.
  rewrite (for_each_total _ (fun d tx => apply_to_utxos tx d)).
  - reflexivity.
  - intros tx s. apply apply_transaction_run.
Qed.

Lemma dict_get_drop_none d (k k' : string) :
  dict_get d k = None -> dict_get (dict_drop d k') k = None.
Proof.
  intros Hk. destruct (string_dec k k') as [->|Hne].
  - apply dict_get_drop_same.
  - rewrite dict_get_drop_other by exact Hne. exact Hk.
Qed.

Lemma spend_inputs_keeps_none ins d k :
  dict_get d k = None -> dict_get (spend_inputs ins d) k = None.
Proof.
  revert d; induction ins as [|inp r IH]; intros d Hk; simpl; [exact Hk|].
  apply IH. apply dict_get_drop_none. exact Hk.
Qed.

Lemma spend_inputs_spent ins d inp :
  In inp ins -> dict_get (spend_inputs ins d) (reference_key inp) = None.
Proof.
  revert d; induction ins as [|inp' r IH]; intros d Hin; simpl;
    [contradiction|].
  destruct Hin as [->|Hin]; [|apply IH; exact Hin].
  apply spend_inputs_keeps_none. apply dict_get_drop_same.
Qed.

Lemma spend_inputs_other ins d k :
  (forall inp, In inp ins -> k <> reference_key inp) ->
  dict_get (spend_inputs ins d) k = dict_get d k.
Proof.
  revert d; induction ins as [|inp r IH]; intros d Hk; simpl; [reflexivity|].
  rewrite IH by (intros i Hi; apply Hk; right; exact Hi).
  apply dict_get_drop_other. apply Hk. left. reflexivity.
Qed.

Lemma create_outputs_cons tx p (rest : list (Z * TxOut)) d :
  create_outputs tx (p :: rest) d
  = create_outputs tx rest
      (dict_setitem d (utxo_key (tx_id tx) (fst p))
                    (output_utxo tx (fst p) (snd p))).
Proof. reflexivity. Qed.

Lemma create_outputs_other tx (pairs : list (Z * TxOut)) d k :
  (forall idx out, In (idx, out) pairs -> k <> utxo_key (tx_id tx) idx) ->
  dict_get (create_outputs tx pairs d) k = dict_get d k.
Proof.
  revert d; induction pairs as [|[idx out] r IH]; intros d Hk;
    [reflexivity|].
  rewrite create_outputs_cons, IH.
  - apply dict_get_setitem_other. apply (Hk idx out). left. reflexivity.
  - intros idx' out' Hin. apply (Hk idx' out'). right. exact Hin.
Qed.

Lemma enumerate_from_lower {A : Type} (l : list A) (start idx : Z) (x : A) :
  In (idx, x) (enumerate_from start l) -> start <= idx.
Proof. intros Hin. apply enumerate_from_In in Hin. tauto. Qed.

Lemma create_outputs_at tx outs (start : Z) d (i : nat) out :
  nth_error outs i = Some out ->
  dict_get (create_outputs tx (enumerate_from start outs) d)
           (utxo_key (tx_id tx) (start + Z.of_nat i))
  = Some (output_utxo tx (start + Z.of_nat i) out).
Proof.
  revert start d i; induction outs as [|o r IH]; intros start d i Hnth.
  - destruct i; discriminate.
  - destruct i as [|i]; simpl in Hnth.
    + injection Hnth as ->. cbn [enumerate_from].
      rewrite create_outputs_cons. cbn [fst snd].
      replace (start + Z.of_nat 0) with start by lia.
      rewrite create_outputs_other.
      * apply dict_get_setitem_same.
      * intros idx out' Hin Heq. apply utxo_key_inj in Heq.
        apply enumerate_from_lower in Hin. lia.
    + cbn [enumerate_from]. rewrite create_outputs_cons.
      replace (start + Z.of_nat (S i)) with ((start + 1) + Z.of_nat i) by lia.
      apply IH. exact Hnth.
Qed.

Lemma enumerate_In_bound {A : Type} (l : list A) (idx : Z) (x : A) :
  In (idx, x) (enumerate l) ->
  exists i, idx = Z.of_nat i /\ (i < List.length l)%nat.
Proof.
  intros Hin. apply enumerate_from_In in Hin. destruct Hin as [Hle Hnth].
  exists (Z.to_nat (idx - 0)). split; [lia|].
  apply nth_error_Some. congruence.
Qed.

(** One transaction, applied to the dictionary, has the effect [tx_effect]. *)
Lemma apply_to_utxos_effect tx d : tx_effect tx d (apply_to_utxos tx d).
Proof.
  unfold tx_effect, apply_to_utxos. split; [|split].
  - intros i out Hnth.
    apply (create_outputs_at tx (outputs tx) 0 _ i out Hnth).
  - intros inp Hin Hfresh. rewrite create_outputs_other.
    + apply spend_inputs_spent. exact Hin.
    + intros idx out Hmem. apply enumerate_In_bound in Hmem.
      destruct Hmem as [i [-> Hi]]. apply Hfresh. exact Hi.
  - intros k Hins Houts. rewrite create_outputs_other.
    + apply spend_inputs_other. exact Hins.
    + intros idx out Hmem. apply enumerate_In_bound in Hmem.
      destruct Hmem as [i [-> Hi]]. apply Houts. exact Hi.
Qed.

Lemma fold_apply_effect txs d :
  txs_effect txs d (fold_left (fun d tx => apply_to_utxos tx d) txs d).
Proof.
  revert d; induction txs as [|tx r IH]; intros d; simpl.
  - constructor.
  - econstructor; [apply apply_to_utxos_effect|apply IH].
Qed.

(** A returning call of [mine_block], taken apart. *)
Lemma mine_block_returned pow now fuel txs validator self blk self' :
  mine_block pow now fuel txs validator self = (Return blk, self') ->
  exists root h,
    mine pow fuel (sealing_header pow self validator now root)
    = Some (h, header blk)
    /\ transactions blk = txs
    /\ blocks self' = List.app (blocks self) [blk]
    /\ utxo_set self'
       = fold_left (fun d tx => apply_to_utxos tx d) txs (utxo_set self).
Proof.
  intros Hrun.
  destruct (mine_block_run pow now fuel txs validator self) as [root [_ Heq]].
  rewrite Heq in Hrun. exists root.
  destruct (mine pow fuel (sealing_header pow self validator now root))
    as [[h hdr']|]; try discriminate.
  cbn [snd] in Hrun. injection Hrun as <- <-. exists h. auto.
Qed.

(** [mine_block] raises nothing, and it returns once the fuel exceeds a
    nonce whose digest has the target prefix. *)
Lemma mine_block_progress pow now fuel txs validator self :
  (forall e s, mine_block pow now fuel txs validator self <> (Raise e, s))
  /\ (forall root m,
        0 <= m -> (Z.to_nat m < fuel)%nat ->
        startswith (pow_digest (sealing_header pow self validator now root) m)
                   (pow_target pow) = true ->
        Block_calculate_merkle_root
          {| header := candidate_header pow (latest_block self) validator now;
             transactions := txs |} = Return root ->
        exists blk self',
          mine_block pow now fuel txs validator self = (Return blk, self')).
Proof.
  destruct (mine_block_run pow now fuel txs validator self) as [root [Hroot Heq]].
  split.
  - intros e s. rewrite Heq.
    destruct (mine pow fuel (sealing_header pow self validator now root))
      as [sealed|] eqn:Hm; discriminate.
  - intros root' m Hm Hfuel Hst Hroot'. rewrite Hroot in Hroot'.
    injection Hroot' as <-. rewrite Heq.
    destruct (mine_loop_complete _ _ m Hst fuel 0 ltac:(lia)) as [h [hdr' Hrun]].
    unfold mine. rewrite Hrun. eauto.
Qed.

Lemma sealed_prev_hash pow fuel hdr h hdr' :
  mine pow fuel hdr = Some (h, hdr') -> prev_hash hdr' = prev_hash hdr.
Proof.
  intros Hrun. apply mine_loop_sound in Hrun.
  destruct Hrun as [m [_ [_ [-> _]]]]. reflexivity.
Qed.

Lemma latest_block_snoc self l blk :
  blocks self = List.app l [blk] -> latest_block self = Some blk.
Proof.
  intros Hb. unfold latest_block. rewrite Hb, map_app. simpl.
  apply last_last.
Qed.

Lemma latest_block_none self :
  latest_block self = None <-> blocks self = [].
Proof.
  unfold latest_block. split.
  - destruct (blocks self) as [|b r] eqn:Hb; [reflexivity|].
    assert (Hne : b :: r <> []) by discriminate.
    destruct (exists_last Hne) as [l' [x ->]].
    rewrite map_app. simpl. rewrite last_last. discriminate.
  - intros ->. reflexivity.
Qed.

Lemma mined_prev_hash pow now fuel txs validator self blk self' :
  mine_block pow now fuel txs validator self = (Return blk, self') ->
  prev_hash (header blk)
  = match latest_block self with
    | Some tip => BlockHeader_calculate_hash (header tip)
    | None => str_mul "0" 64
    end
  /\ latest_block self' = Some blk.
Proof.
  intros Hrun. apply mine_block_returned in Hrun.
  destruct Hrun as [root [h [Hmine [_ [Hblocks _]]]]]. split.
  - rewrite (sealed_prev_hash _ _ _ _ _ Hmine). reflexivity.
  - eapply latest_block_snoc. exact Hblocks.
Qed.

(** C1, as the code has it: when [mine_block] returns, the UTXO set has
    gone through the effect of every transaction, in list order: each
    input's key removed, then one UTXO per output stored under the
    transaction's [tx_id] and the output's position, with that output's
    amount and address; so an input key that is also the key of one of the
    transaction's outputs is present afterwards, holding that output. In
    particular, for one transaction spending a stored UTXO [U] into two
    outputs, when [U]'s key is neither of the two output keys, [U]'s key is
    absent afterwards, the two outputs are present with their amounts and
    addresses, and every other key is as before. *)
Theorem mine_block_updates_utxos pow now fuel txs validator self blk self' :
  mine_block pow now fuel txs validator self = (Return blk, self') ->
  txs_effect txs (utxo_set self) (utxo_set self')
  /\ (forall tx inp o1 o2 U,
        txs = [tx] -> inputs tx = [inp] -> outputs tx = [o1; o2] ->
        dict_get (utxo_set self) (reference_key inp) = Some U ->
        reference_key inp <> utxo_key (tx_id tx) 0 ->
        reference_key inp <> utxo_key (tx_id tx) 1 ->
        dict_get (utxo_set self') (reference_key inp) = None
        /\ dict_get (utxo_set self') (utxo_key (tx_id tx) 0)
           = Some {| utxo_tx_id := tx_id tx; utxo_output_index := 0;
                     utxo_amount := out_amount o1;
                     owner_address := address o1;
                     utxo_lock_script := None |}
        /\ dict_get (utxo_set self') (utxo_key (tx_id tx) 1)
           = Some {| utxo_tx_id := tx_id tx; utxo_output_index := 1;
                     utxo_amount := out_amount o2;
                     owner_address := address o2;
                     utxo_lock_script := None |}
        /\ utxo_key (tx_id tx) 0 <> utxo_key (tx_id tx) 1
        /\ (forall k,
              k <> reference_key inp ->
              k <> utxo_key (tx_id tx) 0 -> k <> utxo_key (tx_id tx) 1 ->
              dict_get (utxo_set self') k = dict_get (utxo_set self) k)).
Proof.
  intros Hrun. apply mine_block_returned in Hrun.
  destruct Hrun as [root [h [_ [_ [_ Hutxo]]]]]. rewrite Hutxo. split.
  - apply fold_apply_effect.
  - intros tx inp o1 o2 U -> Hins Houts HU Hk0 Hk1. cbn [fold_left].
    destruct (apply_to_utxos_effect tx (utxo_set self)) as [Hout [Hin Hother]].
    rewrite Hins, Houts in *.
    assert (Hfresh : forall i, (i < List.length [o1; o2])%nat ->
              reference_key inp <> utxo_key (tx_id tx) (Z.of_nat i)).
    { intros i Hi. simpl in Hi.
      destruct i as [|[|i]]; [exact Hk0|exact Hk1|lia]. }
    split; [apply Hin; [left; reflexivity|exact Hfresh]|].
    split; [exact (Hout 0%nat o1 eq_refl)|].
    split; [exact (Hout 1%nat o2 eq_refl)|].
    split.
    + intros Heq. apply utxo_key_inj in Heq. discriminate.
    + intros k Hk Hn0 Hn1. apply Hother.
      * intros i [<-|[]]. exact Hk.
      * intros i Hi. simpl in Hi.
        destruct i as [|[|i]]; [exact Hn0|exact Hn1|lia].
Qed.

(** C7: when [mine_block] returns, the new block's [prev_hash] is the
    64-character zero placeholder if the store held no block, and otherwise
    the hash of the header of the latest stored block; the new block is
    then the latest one, so a second [mine_block] on the resulting store
    sets [prev_hash] to the hash of the first block's header, by the hash
    branch and not the placeholder branch. And [mine_block] does return
    once the fuel exceeds a nonce whose digest, over the header to seal,
    has the target prefix. *)
Theorem mine_block_chain_linkage pow now fuel txs validator self :
  (forall blk self',
      mine_block pow now fuel txs validator self = (Return blk, self') ->
      (blocks self = [] ->
         prev_hash (header blk)
         = "0000000000000000000000000000000000000000000000000000000000000000")
      /\ (blocks self <> [] ->
          exists tip,
            latest_block self = Some tip
            /\ prev_hash (header blk) = BlockHeader_calculate_hash (header tip))
      /\ blocks self' = List.app (blocks self) [blk]
      /\ (forall pow2 now2 fuel2 txs2 validator2 blk2 self2,
            mine_block pow2 now2 fuel2 txs2 validator2 self'
            = (Return blk2, self2) ->
            prev_hash (header blk2) = BlockHeader_calculate_hash (header blk)))
  /\ (forall root m,
        0 <= m -> (Z.to_nat m < fuel)%nat ->
        Block_calculate_merkle_root
          {| header := candidate_header pow (latest_block self) validator now;
             transactions := txs |} = Return root ->
        leading_zeros (Z.max 1 (pow_difficulty pow))
          (pow_digest (sealing_header pow self validator now root) m) ->
        exists blk self',
          mine_block pow now fuel txs validator self = (Return blk, self')).
Proof.
  split.
  - intros blk self' Hrun.
    destruct (mined_prev_hash _ _ _ _ _ _ _ _ Hrun) as [Hprev Htip].
    split; [|split; [|split]].
    + intros Hempty. apply latest_block_none in Hempty.
      rewrite Hempty in Hprev. exact Hprev.
    + intros Hne. destruct (latest_block self) as [tip|] eqn:Hl.
      * exists tip. auto.
      * apply latest_block_none in Hl. contradiction.
    + apply mine_block_returned in Hrun.
      destruct Hrun as [root [h [_ [_ [Hb _]]]]]. exact Hb.
    + intros pow2 now2 fuel2 txs2 validator2 blk2 self2 Hrun2.
      destruct (mined_prev_hash _ _ _ _ _ _ _ _ Hrun2) as [Hprev2 _].
      rewrite Htip in Hprev2. exact Hprev2.
  - intros root m Hm Hfuel Hroot Hzeros.
    destruct (mine_block_progress pow now fuel txs validator self)
      as [_ Hprogress].
    apply (Hprogress root m Hm Hfuel); [|exact Hroot].
    apply startswith_target. exact Hzeros.
Qed.

(** ** Creating a transaction *)

Lemma accumulate_app total l1 l2 :
  accumulate total (List.app l1 l2) = accumulate (accumulate total l1) l2.
Proof. unfold accumulate. rewrite map_app, fold_left_app. reflexivity. Qed.


(** Where the loop of [select_inputs] stops, and with what. *)
Lemma select_inputs_cut required utxos ins (total : spec_float) :
  utxos <> [] ->
  exists n,
    (1 <= n <= List.length utxos)%nat
    /\ (forall m, (1 <= m < n)%nat ->
          exists t, float_accumulate total (firstn m utxos) = Some t
                    /\ float_ge t (num_value required) = false)
    /\ match float_accumulate total (firstn n utxos) with
       | None => select_inputs required utxos ins total = Raise OverflowError
       | Some t =>
           select_inputs required utxos ins total
           = Return (List.app ins (map txin_of (firstn n utxos)), t)
           /\ ((n < List.length utxos)%nat ->
               float_ge t (num_value required) = true)
       end.
Proof.
  revert ins total; induction utxos as [|u rest IH]; intros ins total Hne;
    [contradiction|].
  cbn [select_inputs].
  destruct (float_iadd total (num_value (utxo_amount u))) as [total'|] eqn:Hadd.
  - destruct (float_ge total' (num_value required)) eqn:Hge.
    + exists 1%nat. split; [simpl; lia|]. split; [intros m Hm; lia|].
      cbn [firstn float_accumulate]. rewrite Hadd. cbn [float_accumulate map].
      split; [reflexivity|]. intros _. exact Hge.
    + destruct rest as [|u' rest'].
      * exists 1%nat. split; [simpl; lia|]. split; [intros m Hm; lia|].
        cbn [firstn float_accumulate]. rewrite Hadd.
        cbn [float_accumulate select_inputs map].
        split; [reflexivity|]. simpl. lia.
      * destruct (IH (List.app ins [txin_of u]) total' ltac:(discriminate))
          as [n [Hn [Hshort Hrun]]].
        exists (S n). split; [simpl in *; lia|]. split.
        -- intros m Hm. destruct m as [|[|m]]; [lia| |].
           ++ exists total'. cbn [firstn float_accumulate]. rewrite Hadd.
              split; [reflexivity|exact Hge].
           ++ destruct (Hshort (S m) ltac:(lia)) as [t [Ht Hget]].
              exists t. rewrite firstn_cons. cbn [float_accumulate].
              rewrite Hadd. split; assumption.
        -- rewrite firstn_cons. cbn [float_accumulate]. rewrite Hadd.
           destruct (float_accumulate total' (firstn n (u' :: rest')))
             as [t|].
           ++ destruct Hrun as [Hrun Hreach]. split.
              ** unfold txin_of in Hrun at 1. rewrite Hrun. cbn [map].
                 rewrite <- app_assoc. reflexivity.
              ** intros Hlt. apply Hreach. simpl in *. lia.
           ++ unfold txin_of in Hrun at 1. exact Hrun.
  - exists 1%nat. split; [simpl; lia|]. split; [intros m Hm; lia|].
    cbn [firstn float_accumulate]. rewrite Hadd. reflexivity.
Qed.

(** The loop of [create_transaction] on a sender who owns something. *)
Lemma loop_outcome required utxos :
  utxos <> [] ->
  exists n,
    loop_ends_after required utxos n
    /\ match running_total utxos n with
       | None =>
           select_inputs required utxos [] float_zero = Raise OverflowError
       | Some t =>
           select_inputs required utxos [] float_zero
           = Return (map txin_of (firstn n utxos), t)
       end.
Proof.
  intros Hne.
  destruct (select_inputs_cut required utxos [] float_zero Hne)
    as [n [Hn [Hshort Hrun]]].
  exists n. unfold running_total. split.
  - split; [exact Hn|]. split; [exact Hshort|].
    intros Hlt [t [Ht Hget]]. unfold running_total in Ht.
    rewrite Ht in Hrun. destruct Hrun as [_ Hreach].
    rewrite (Hreach Hlt) in Hget. discriminate.
  - destruct (float_accumulate float_zero (firstn n utxos)) as [t|];
      [exact (proj1 Hrun)|exact Hrun].
Qed.


Lemma create_transaction_run from_address outs self :
  create_transaction from_address outs self
  = match sender_utxos self from_address with
    | [] =>
        (Raise (InsufficientFundsException from_address
                  (py_sum (map out_amount outs)) (PyInt 0)), self)
    | _ :: _ =>
        match select_inputs (py_sum (map out_amount outs))
                (sender_utxos self from_address) [] float_zero with
        | Return (ins, total) =>
            if float_lt total (num_value (py_sum (map out_amount outs)))
            then (Raise (InsufficientFundsException from_address
                           (py_sum (map out_amount outs)) (PyFloat total)),
                  self)
            else (Return {| tx_id :=
                              Some (Transaction_calculate_hash
                                      {| tx_id := None; inputs := ins;
                                         outputs := outs; signatures := [] |});
                            inputs := ins; outputs := outs;
                            signatures := [] |}, self)
        | Raise e => (Raise e, self)
        | OutOfFuel => (OutOfFuel, self)
        end
    end.
Proof.
  cbv beta iota zeta delta [create_transaction bind all_utxos read ret lift].
  fold (sender_utxos self from_address).
  destruct (sender_utxos self from_address) as [|u r]; [reflexivity|].
  destruct (select_inputs _ _ _ _) as [[ins total]|e|]; try reflexivity.
  destruct (float_lt total _); reflexivity.
Qed.


End Properties.

(** * Further properties of the code *)

(** ** More on dictionaries *)

Section DictMore.
Context {K V : Type} `{PyKey K}.
Implicit Types (d : pydict K V) (k : K) (v : V).

Lemma dict_setitem_absent d k v :
  dict_get d k = None -> dict_setitem d k v = List.app d [(k, v)].
Proof.
  induction d as [|[k' v'] r IH]; simpl; [reflexivity|].
  destruct (key_eq_dec k k'); [discriminate|].
  intros Hk. rewrite IH by exact Hk. reflexivity.
Qed.

Lemma dict_setitem_same_value d k v :
  dict_get d k = Some v -> dict_setitem d k v = d.
Proof.
  induction d as [|[k' v'] r IH]; simpl; [discriminate|].
  destruct (key_eq_dec k k') as [->|Hne].
  - intros [= ->]. reflexivity.
  - intros Hk. rewrite IH by exact Hk. reflexivity.
Qed.

Lemma dict_keys_setitem_present d k v v0 :
  dict_get d k = Some v0 -> dict_keys (dict_setitem d k v) = dict_keys d.
Proof.
  induction d as [|[k' v'] r IH]; simpl; [discriminate|].
  destruct (key_eq_dec k k') as [->|Hne]; [reflexivity|].
  intros Hk. simpl. f_equal. apply IH. exact Hk.
Qed.

Lemma dict_drop_snoc d k v :
  dict_get d k = None -> dict_drop (List.app d [(k, v)]) k = d.
Proof.
  induction d as [|[k' v'] r IH]; simpl.
  - intros _. destruct (key_eq_dec k k); [reflexivity|contradiction].
  - destruct (key_eq_dec k k'); [discriminate|].
    intros Hk. rewrite IH by exact Hk. reflexivity.
Qed.

Lemma dict_In_setitem d k v k0 v0 :
  In (k0, v0) (dict_setitem d k v) -> (k0, v0) = (k, v) \/ In (k0, v0) d.
Proof.
  induction d as [|[k' v'] r IH]; simpl; [intuition|].
  destruct (key_eq_dec k k') as [->|Hne]; simpl; intuition.
Qed.

Lemma dict_In_drop d k k0 v0 :
  In (k0, v0) (dict_drop d k) -> In (k0, v0) d.
Proof.
  induction d as [|[k' v'] r IH]; simpl; [tauto|].
  destruct (key_eq_dec k k'); simpl; intuition.
Qed.

Lemma dict_get_In d k v : dict_get d k = Some v -> In (k, v) d.
Proof.
  induction d as [|[k' v'] r IH]; simpl; [discriminate|].
  destruct (key_eq_dec k k') as [->|Hne]; [intros [= ->]; auto|auto].
Qed.

Lemma dict_In_get d k v : dict_wf d -> In (k, v) d -> dict_get d k = Some v.
Proof.
  unfold dict_wf. induction d as [|[k' v'] r IH]; simpl; [tauto|].
  intros Hnd Hin. inversion Hnd as [|? ? Hnin Hr]; subst.
  destruct Hin as [[= -> ->]|Hin].
  - destruct (key_eq_dec k k); [reflexivity|contradiction].
  - destruct (key_eq_dec k k') as [->|Hne]; [|auto].
    exfalso. apply Hnin. change k' with (fst (k', v)). apply in_map. exact Hin.
Qed.
End DictMore.

Section LedgerFacts.
Context `{Sha256} {amount : Type} `{PyNumber amount}.

Implicit Types (self : @InMemoryLedgerRepository amount).
Implicit Types (tx : @Transaction amount) (txs : list (@Transaction amount)).
Implicit Types (blk : @Block amount) (hdr : BlockHeader).
Implicit Types (d : pydict string (@UTXO amount)) (u : @UTXO amount).
Implicit Types (utxos : list (@UTXO amount)) (outs : list (@TxOut amount)).
Implicit Types (pow : ProofOfWorkAdapter) (ins : list TxIn).

(** ** The ledger store, continued *)

Lemma list_getitem_app_old {A : Type} (l : list A) (x : A) (h : Z) :
  0 <= h < Z.of_nat (List.length l) ->
  list_getitem (List.app l [x]) h = list_getitem l h.
Proof.
  intros Hh. rewrite !list_getitem_nonneg by lia.
  apply nth_error_app1. lia.
Qed.

Lemma list_getitem_app_new {A : Type} (l : list A) (x : A) :
  list_getitem (List.app l [x]) (Z.of_nat (List.length l)) = Some x.
Proof.
  rewrite list_getitem_nonneg by lia. rewrite Nat2Z.id.
  rewrite nth_error_app2, Nat.sub_diag by lia. reflexivity.
Qed.

Lemma get_block_run self height :
  0 <= height < Z.of_nat (List.length (blocks self)) ->
  get_block height self
  = (match list_getitem (blocks self) height with
     | Some b => Return (Some b)
     | None => Raise IndexError
     end, self).
Proof.
  intros [Hlo Hhi]. unfold get_block, bind, read, lift, ret, index_or_raise.
  destruct (Z.leb_spec 0 height); [|lia].
  destruct (Z.ltb_spec height (Z.of_nat (List.length (blocks self)))); [|lia].
  simpl. destruct (list_getitem (blocks self) height); reflexivity.
Qed.

(** X1: The block list is append-only: [add_block] files the block at the next
    height, where [get_block] and [get_latest_block] then find it; the
    blocks at the earlier heights and the UTXO set stay as they were. *)
Theorem add_block_append_only self (b : @Block amount) :
  exists self',
    add_block b self = (Return tt, self')
    /\ utxo_set self' = utxo_set self
    /\ List.length (blocks self') = S (List.length (blocks self))
    /\ get_block (Z.of_nat (List.length (blocks self))) self'
       = (Return (Some b), self')
    /\ get_latest_block self' = (Return (Some b), self')
    /\ (forall height,
          0 <= height < Z.of_nat (List.length (blocks self)) ->
          fst (get_block height self') = fst (get_block height self)).
Proof.
  eexists. split; [reflexivity|]. cbn [utxo_set blocks].
  split; [reflexivity|].
  split; [rewrite length_app; simpl; lia|].
  split; [|split].
  - rewrite get_block_run.
    + cbn [blocks]. rewrite list_getitem_app_new. reflexivity.
    + cbn [blocks]. rewrite length_app. simpl. lia.
  - rewrite get_latest_block_run. f_equal. f_equal.
    eapply latest_block_snoc. reflexivity.
  - intros height Hh. rewrite !get_block_run.
    + cbn [blocks fst]. rewrite list_getitem_app_old by exact Hh. reflexivity.
    + exact Hh.
    + cbn [blocks]. rewrite length_app. simpl. lia.
Qed.

(** X2: [get_latest_block] returns [None] exactly on a store without blocks,
    and otherwise the block that [get_block] returns at the top height,
    [len(blocks) - 1]. *)
Theorem get_latest_block_is_top self :
  (get_latest_block self = (Return None, self) <-> blocks self = [])
  /\ (blocks self <> [] ->
      exists b,
        get_latest_block self = (Return (Some b), self)
        /\ get_block (Z.of_nat (List.length (blocks self)) - 1) self
           = (Return (Some b), self)).
Proof.
  rewrite get_latest_block_run. split.
  - split.
    + intros [= Hl]. apply latest_block_none. exact Hl.
    + intros Hb. apply latest_block_none in Hb. rewrite Hb. reflexivity.
  - intros Hne. destruct (exists_last Hne) as [l [b Hb]]. exists b.
    rewrite (latest_block_snoc self l b Hb). split; [reflexivity|].
    rewrite get_block_run.
    + rewrite Hb, length_app. simpl.
      replace (Z.of_nat (List.length l + 1) - 1) with (Z.of_nat (List.length l))
        by lia.
      rewrite list_getitem_app_new. reflexivity.
    + rewrite Hb, length_app. simpl. lia.
Qed.

(** X3: [add_utxo] is an upsert that [get_utxo] reads back: the UTXO is found
    under its own [tx_id] and [output_index]; every other key reads as
    before; a key that was present keeps the number of entries, and a new
    key is filed last. The blocks are untouched. *)
Theorem add_utxo_get_utxo self u :
  exists self',
    add_utxo u self = (Return tt, self')
    /\ blocks self' = blocks self
    /\ get_utxo (utxo_tx_id u) (utxo_output_index u) self'
       = (Return (Some u), self')
    /\ (forall t i,
          utxo_key t i <> utxo_key (utxo_tx_id u) (utxo_output_index u) ->
          fst (get_utxo t i self') = fst (get_utxo t i self))
    /\ (dict_contains (utxo_set self)
          (utxo_key (utxo_tx_id u) (utxo_output_index u)) = true ->
        dict_keys (utxo_set self') = dict_keys (utxo_set self))
    /\ (dict_contains (utxo_set self)
          (utxo_key (utxo_tx_id u) (utxo_output_index u)) = false ->
        utxo_set self'
        = List.app (utxo_set self)
            [(utxo_key (utxo_tx_id u) (utxo_output_index u), u)]).
Proof.
  eexists. split; [apply add_utxo_run|]. unfold with_utxos.
  cbn [blocks utxo_set].
  split; [reflexivity|]. split; [|split; [|split]].
  - unfold get_utxo, bind, read, ret. cbn [utxo_set].
    rewrite dict_get_setitem_same. reflexivity.
  - intros t i Hne. unfold get_utxo, bind, read, ret. cbn [utxo_set fst].
    rewrite dict_get_setitem_other by exact Hne. reflexivity.
  - unfold dict_contains. intros Hin.
    destruct (dict_get (utxo_set self)
                (utxo_key (utxo_tx_id u) (utxo_output_index u)))
      as [v0|] eqn:Hg; [|discriminate].
    eapply dict_keys_setitem_present. exact Hg.
  - intros Hout. apply dict_contains_false in Hout.
    apply dict_setitem_absent. exact Hout.
Qed.

(** X4: Adding a UTXO under a key that was absent and then removing that key
    gives back the store, entry for entry. *)
Theorem add_then_remove_restores self u :
  dict_get (utxo_set self) (utxo_key (utxo_tx_id u) (utxo_output_index u))
  = None ->
  bind (add_utxo u)
       (fun _ => remove_utxo (utxo_key (utxo_tx_id u) (utxo_output_index u)))
       self
  = (Return tt, self).
Proof.
  intros Habsent. unfold bind. rewrite add_utxo_run, remove_utxo_run.
  unfold with_utxos. cbn [blocks utxo_set].
  rewrite dict_setitem_absent by exact Habsent.
  rewrite dict_drop_snoc by exact Habsent.
  destruct self; reflexivity.
Qed.

(** ** The invariant of the store *)

Lemma consistent_same_utxos self (other : @InMemoryLedgerRepository amount) :
  utxo_set other = utxo_set self ->
  store_consistent self -> store_consistent other.
Proof. unfold store_consistent. intros ->. tauto. Qed.

Lemma consistent_setitem self u :
  store_consistent self ->
  store_consistent
    (with_utxos self
       (dict_setitem (utxo_set self)
          (utxo_key (utxo_tx_id u) (utxo_output_index u)) u)).
Proof.
  unfold store_consistent, with_utxos. cbn [utxo_set]. intros [Hwf Hkeys].
  split; [apply dict_wf_setitem; exact Hwf|].
  intros k v Hin. apply dict_In_setitem in Hin.
  destruct Hin as [[= -> ->]|Hin]; [reflexivity|auto].
Qed.

Lemma consistent_drop self (k : string) :
  store_consistent self ->
  store_consistent (with_utxos self (dict_drop (utxo_set self) k)).
Proof.
  unfold store_consistent, with_utxos. cbn [utxo_set]. intros [Hwf Hkeys].
  split; [apply dict_wf_drop; exact Hwf|].
  intros k0 v Hin. apply dict_In_drop in Hin. auto.
Qed.

Lemma consistent_spend_inputs ins self :
  store_consistent self ->
  store_consistent (with_utxos self (spend_inputs ins (utxo_set self))).
Proof.
  revert self; induction ins as [|inp r IH]; intros self Hc.
  - simpl. rewrite with_utxos_same. exact Hc.
  - apply (consistent_drop self (reference_key inp)) in Hc.
    apply IH in Hc. exact Hc.
Qed.

Lemma consistent_create_outputs tx (pairs : list (Z * TxOut)) self :
  store_consistent self ->
  store_consistent (with_utxos self (create_outputs tx pairs (utxo_set self))).
Proof.
  revert self; induction pairs as [|[idx out] r IH]; intros self Hc.
  - simpl. rewrite with_utxos_same. exact Hc.
  - apply (consistent_setitem self (output_utxo tx idx out)) in Hc.
    apply IH in Hc. exact Hc.
Qed.

Lemma consistent_apply_to_utxos tx self :
  store_consistent self ->
  store_consistent (with_utxos self (apply_to_utxos tx (utxo_set self))).
Proof.
  intros Hc. unfold apply_to_utxos.
  apply (consistent_spend_inputs (inputs tx)) in Hc.
  apply (consistent_create_outputs tx (enumerate (outputs tx))) in Hc.
  exact Hc.
Qed.

Lemma consistent_fold_apply txs self :
  store_consistent self ->
  store_consistent
    (with_utxos self
       (fold_left (fun d tx => apply_to_utxos tx d) txs (utxo_set self))).
Proof.
  revert self; induction txs as [|tx r IH]; intros self Hc.
  - simpl. rewrite with_utxos_same. exact Hc.
  - apply (consistent_apply_to_utxos tx) in Hc. apply IH in Hc. exact Hc.
Qed.

(** X5: The store methods keep the invariant: the new repository has pairwise
    distinct keys with every UTXO under its own key, and [add_utxo],
    [remove_utxo] and [add_block] keep it so. *)
Theorem store_methods_keep_invariant :
  store_consistent (@new_repository amount)
  /\ (forall self,
        store_consistent self ->
        (forall u, store_consistent (snd (add_utxo u self)))
        /\ (forall k, store_consistent (snd (remove_utxo k self)))
        /\ (forall b : @Block amount, store_consistent (snd (add_block b self)))).
Proof.
  split.
  - split; [constructor|]. intros k u [].
  - intros self Hc. split; [|split].
    + intros u. rewrite add_utxo_run. apply consistent_setitem. exact Hc.
    + intros k. rewrite remove_utxo_run. apply consistent_drop. exact Hc.
    + intros b. exact Hc.
Qed.

(** ** Mining and staking, continued *)

(** The Merkle root does not read the header. *)
Lemma merkle_root_ignores_header (h1 h2 : BlockHeader) txs :
  Block_calculate_merkle_root {| header := h1; transactions := txs |}
  = Block_calculate_merkle_root {| header := h2; transactions := txs |}.
Proof. reflexivity. Qed.

Lemma block_with_root_verifies hdr txs root :
  Block_calculate_merkle_root {| header := hdr; transactions := txs |}
  = Return root ->
  merkle_root hdr = root ->
  Block_verify {| header := hdr; transactions := txs |} = Return true.
Proof.
  intros Hroot Hm. unfold Block_verify. rewrite Hroot. cbn [obind header].
  rewrite Hm, String.eqb_refl. reflexivity.
Qed.

(** A returning call of [mine_block], with the header it stored. *)
Lemma mine_block_sealed pow now fuel txs validator self blk self' :
  mine_block pow now fuel txs validator self = (Return blk, self') ->
  exists root m,
    Block_calculate_merkle_root
      {| header := candidate_header pow (latest_block self) validator now;
         transactions := txs |} = Return root
    /\ 0 <= m
    /\ startswith (pow_digest (sealing_header pow self validator now root) m)
                  (pow_target pow) = true
    /\ blk = {| header := set_nonce (sealing_header pow self validator now root) m;
                transactions := txs |}
    /\ self' = {| blocks := List.app (blocks self) [blk];
                  utxo_set := fold_left (fun d tx => apply_to_utxos tx d) txs
                                        (utxo_set self) |}.
Proof.
  intros Hrun.
  destruct (mine_block_run pow now fuel txs validator self) as [root [Hroot Heq]].
  rewrite Heq in Hrun. exists root.
  destruct (mine pow fuel (sealing_header pow self validator now root))
    as [[h hdr']|] eqn:Hmine; [|discriminate].
  apply mine_loop_sound in Hmine.
  destruct Hmine as [m [Hm [Hh [Hhdr [Hst _]]]]].
  exists m. cbn [snd] in Hrun. injection Hrun as <- <-.
  split; [exact Hroot|]. split; [lia|]. split; [rewrite <- Hh; exact Hst|].
  rewrite Hhdr. split; reflexivity.
Qed.

(** What [stake_block] does: it always returns. *)
Lemma stake_block_run now txs validator self :
  exists root,
    Block_calculate_merkle_root
      {| header := candidate_header {| pow_difficulty := 0 |}
                     (latest_block self) validator now;
         transactions := txs |} = Return root
    /\ stake_block now txs validator self
       = (let blk :=
            {| header := sealing_header {| pow_difficulty := 0 |} self
                           validator now root;
               transactions := txs |} in
          (Return blk,
           {| blocks := List.app (blocks self) [blk];
              utxo_set := fold_left (fun d tx => apply_to_utxos tx d) txs
                                    (utxo_set self) |})).
Proof.
  destruct (merkle_root_returns
              {| header := candidate_header {| pow_difficulty := 0 |}
                             (latest_block self) validator now;
                 transactions := txs |}) as [root Hroot].
  exists root. split; [exact Hroot|].
  unfold stake_block. unfold bind at 1. rewrite get_latest_block_run.
  unfold bind at 1. unfold lift at 1.
  change (stake_header
            match latest_block self with
            | Some b => BlockHeader_calculate_hash (header b)
            | None => str_mul "0" 64
            end validator now)
    with (candidate_header {| pow_difficulty := 0 |} (latest_block self)
            validator now).
  rewrite Hroot.
  unfold bind at 1. unfold add_block at 1. unfold bind at 1. unfold read, write.
  unfold bind.
  rewrite (for_each_total _ (fun d tx => apply_to_utxos tx d)).
  - reflexivity.
  - intros tx s. apply apply_transaction_run.
Qed.

Lemma pow_digest_set_nonce hdr m n :
  pow_digest (set_nonce hdr m) n = pow_digest hdr n.
Proof. reflexivity. Qed.

(** X7: A block returned by [mine_block] can be checked from its own fields:
    [Block.verify] returns true on it, the proof-of-work digest recomputed
    from its header at its nonce has the target prefix, and its header
    carries version 1, the given time and validator and the adapter's
    difficulty. It is the last block of the store. *)
Theorem mined_block_checks pow now fuel txs validator self blk self' :
  mine_block pow now fuel txs validator self = (Return blk, self') ->
  Block_verify blk = Return true
  /\ leading_zeros (Z.max 1 (pow_difficulty pow))
       (pow_digest (header blk) (nonce (header blk)))
  /\ 0 <= nonce (header blk)
  /\ transactions blk = txs
  /\ version (header blk) = 1
  /\ timestamp (header blk) = now
  /\ difficulty (header blk) = pow_difficulty pow
  /\ validator_id (header blk) = Some validator
  /\ get_latest_block self' = (Return (Some blk), self').
Proof.
  intros Hrun. apply mine_block_sealed in Hrun.
  destruct Hrun as [root [m [Hroot [Hm [Hst [-> ->]]]]]].
  cbn [header transactions nonce set_nonce].
  split; [|split; [|repeat split]].
  - apply (block_with_root_verifies _ _ root); [|reflexivity].
    rewrite <- Hroot. apply merkle_root_ignores_header.
  - apply startswith_target. rewrite pow_digest_set_nonce. exact Hst.
  - exact Hm.
  - rewrite get_latest_block_run. f_equal. f_equal.
    eapply latest_block_snoc. reflexivity.
Qed.

(** X8: [StakingService.stake_block] needs no search and always returns. Its
    block passes [Block.verify], has difficulty 0 and nonce 0, and links to
    the chain tip as [mine_block] does; and it leaves the very UTXO set that
    a returning [mine_block] on the same store and transactions leaves. *)
Theorem stake_block_as_mine_block now txs validator self :
  exists blk self',
    stake_block now txs validator self = (Return blk, self')
    /\ Block_verify blk = Return true
    /\ transactions blk = txs
    /\ difficulty (header blk) = 0
    /\ nonce (header blk) = 0
    /\ blocks self' = List.app (blocks self) [blk]
    /\ (forall pow fuel blk2 self2,
          mine_block pow now fuel txs validator self = (Return blk2, self2) ->
          utxo_set self2 = utxo_set self'
          /\ prev_hash (header blk2) = prev_hash (header blk)
          /\ merkle_root (header blk2) = merkle_root (header blk)
          /\ timestamp (header blk2) = timestamp (header blk)).
Proof.
  destruct (stake_block_run now txs validator self) as [root [Hroot Hrun]].
  cbv zeta in Hrun. eexists. eexists. split; [exact Hrun|].
  cbn [header transactions blocks utxo_set].
  split.
  { apply (block_with_root_verifies _ _ root); [|reflexivity].
    rewrite <- Hroot. apply merkle_root_ignores_header. }
  split; [reflexivity|]. split; [reflexivity|]. split; [reflexivity|].
  split; [reflexivity|].
  intros pow fuel blk2 self2 Hmine. apply mine_block_sealed in Hmine.
  destruct Hmine as [root2 [m [Hroot2 [_ [_ [-> ->]]]]]].
  cbn [header set_nonce merkle_root prev_hash timestamp utxo_set
       sealing_header set_merkle_root candidate_header].
  split; [reflexivity|]. split; [reflexivity|]. split; [|reflexivity].
  rewrite (merkle_root_ignores_header _
             (candidate_header {| pow_difficulty := 0 |}
                (latest_block self) validator now)) in Hroot2.
  rewrite Hroot in Hroot2. injection Hroot2 as <-. reflexivity.
Qed.

(** X9: [MockProofOfStakeAdapter.stake_block] touches no store: its block always
    has the zero placeholder as [prev_hash], whatever the chain holds, and
    passes [Block.verify]; on a store without blocks it is the block that
    [StakingService.stake_block] returns. *)
Theorem adapter_stake_block_ignores_chain (adapter : MockProofOfStakeAdapter)
    now txs validator :
  exists blk,
    adapter_stake_block adapter now txs validator = Return blk
    /\ prev_hash (header blk)
       = "0000000000000000000000000000000000000000000000000000000000000000"
    /\ Block_verify blk = Return true
    /\ validate_block adapter blk = true
    /\ (forall self,
          blocks self = [] ->
          fst (stake_block now txs validator self) = Return blk).
Proof.
  unfold adapter_stake_block.
  destruct (merkle_root_returns
              {| header := stake_header (str_mul "0" 64) validator now;
                 transactions := txs |}) as [root Hroot].
  rewrite Hroot. cbn [obind]. eexists. split; [reflexivity|].
  cbn [header prev_hash set_merkle_root stake_header].
  split; [reflexivity|]. split; [|split; [reflexivity|]].
  - apply (block_with_root_verifies _ _ root); [|reflexivity].
    rewrite <- Hroot. apply merkle_root_ignores_header.
  - intros self Hempty.
    destruct (stake_block_run now txs validator self) as [root2 [Hroot2 Hrun]].
    rewrite Hrun. cbv zeta. cbn [fst].
    apply latest_block_none in Hempty.
    unfold sealing_header. rewrite Hempty in *.
    change (candidate_header {| pow_difficulty := 0 |} None validator now)
      with (stake_header (str_mul "0" 64) validator now) in *.
    rewrite Hroot in Hroot2. injection Hroot2 as <-. reflexivity.
Qed.

(** X6: [mine_block], [stake_block] and [create_transaction] keep the invariant
    of the store, whatever their outcome. *)
Theorem services_keep_invariant self :
  store_consistent self ->
  (forall pow now fuel txs validator,
      store_consistent (snd (mine_block pow now fuel txs validator self)))
  /\ (forall now txs validator,
        store_consistent (snd (stake_block now txs validator self)))
  /\ (forall from_address outs,
        snd (create_transaction from_address outs self) = self).
Proof.
  intros Hc. split; [|split].
  - intros pow now fuel txs validator.
    destruct (mine_block_run pow now fuel txs validator self) as [root [_ ->]].
    destruct (mine pow fuel (sealing_header pow self validator now root));
      [|exact Hc].
    cbv zeta. cbn [snd].
    eapply consistent_same_utxos; [|apply (consistent_fold_apply txs self Hc)].
    reflexivity.
  - intros now txs validator.
    destruct (stake_block_run now txs validator self) as [root [_ ->]].
    cbv zeta. cbn [snd].
    eapply consistent_same_utxos; [|apply (consistent_fold_apply txs self Hc)].
    reflexivity.
  - intros from_address outs. rewrite create_transaction_run.
    destruct (sender_utxos self from_address) as [|u r]; [reflexivity|].
    destruct (select_inputs _ _ _ _) as [[ins total]|e|]; try reflexivity.
    destruct (float_lt total _); reflexivity.
Qed.



(** ** Balances and the creation of transactions *)

Lemma get_balance_run (a : Address) self :
  get_balance a self = (Return (accumulate num_zero (sender_utxos self a)), self).
Proof. reflexivity. Qed.



(** A returning [create_transaction], taken apart. *)
Lemma create_transaction_returned (from_address : Address) outs self tx self' :
  create_transaction from_address outs self = (Return tx, self') ->
  self' = self
  /\ exists n,
       (1 <= n <= List.length (sender_utxos self from_address))%nat
       /\ tx = {| tx_id := Some (Transaction_calculate_hash tx);
                  inputs := map txin_of (firstn n (sender_utxos self from_address));
                  outputs := outs; signatures := [] |}.
Proof.
  rewrite create_transaction_run.
  destruct (sender_utxos self from_address) as [|u r] eqn:Hu; [discriminate|].
  rewrite <- Hu.
  assert (Hne : sender_utxos self from_address <> [])
    by (rewrite Hu; discriminate).
  destruct (loop_outcome (py_sum (map out_amount outs))
              (sender_utxos self from_address) Hne)
    as [n [[Hn _] Hsel]].
  destruct (running_total (sender_utxos self from_address) n) as [total|];
    rewrite Hsel; [|discriminate].
  destruct (float_lt _ _); [discriminate|].
  intros [= <- <-]. split; [reflexivity|]. exists n. split; [exact Hn|].
  reflexivity.
Qed.

Lemma In_firstn {A : Type} (n : nat) (l : list A) (x : A) :
  In x (firstn n l) -> In x l.
Proof.
  revert n; induction l as [|y r IH]; intros n; [destruct n; auto|].
  destruct n as [|n]; simpl; [tauto|]. intros [->|Hin]; eauto.
Qed.

Lemma NoDup_map_filter {A B : Type} (g : A -> B) (f : A -> bool) (l : list A) :
  NoDup (map g l) -> NoDup (map g (filter f l)).
Proof.
  induction l as [|x r IH]; simpl; [auto|].
  intros Hnd. inversion Hnd as [|? ? Hnin Hr]; subst.
  destruct (f x); simpl; [|auto].
  constructor; [|auto].
  intros Hin. apply Hnin. apply in_map_iff in Hin.
  destruct Hin as [y [Hy Hiny]]. apply filter_In in Hiny.
  apply in_map_iff. exists y. tauto.
Qed.

Lemma NoDup_map_firstn {A B : Type} (g : A -> B) (n : nat) (l : list A) :
  NoDup (map g l) -> NoDup (map g (firstn n l)).
Proof.
  revert n; induction l as [|x r IH]; intros n; [destruct n; auto|].
  destruct n as [|n]; simpl; [constructor|].
  intros Hnd. inversion Hnd as [|? ? Hnin Hr]; subst.
  constructor; [|auto].
  intros Hin. apply Hnin. apply in_map_iff in Hin.
  destruct Hin as [y [Hy Hiny]]. apply In_firstn in Hiny.
  apply in_map_iff. exists y. tauto.
Qed.

Lemma consistent_value_keys self :
  store_consistent self ->
  NoDup (map (fun u => utxo_key (utxo_tx_id u) (utxo_output_index u))
             (dict_values (utxo_set self))).
Proof.
  intros [Hwf Hkeys]. unfold dict_values. rewrite map_map.
  rewrite (map_ext_in _ fst); [exact Hwf|].
  intros [k u] Hin. symmetry. apply Hkeys. exact Hin.
Qed.

Lemma consistent_value_live self u :
  store_consistent self ->
  In u (dict_values (utxo_set self)) ->
  dict_get (utxo_set self) (utxo_key (utxo_tx_id u) (utxo_output_index u))
  = Some u.
Proof.
  intros [Hwf Hkeys] Hin. apply in_map_iff in Hin.
  destruct Hin as [[k v] [Hv Hin]]. simpl in Hv. subst v.
  rewrite <- (Hkeys k u Hin). apply dict_In_get; assumption.
Qed.

(** X13: On a store that satisfies the invariant, the transaction that
    [create_transaction] returns has at least one input, no two of its inputs
    reference the same key, and every input resolves through [get_utxo] to a
    live UTXO owned by the sender. It carries the requested outputs, no
    signature, and its own canonical hash as [tx_id]. *)
Theorem create_transaction_inputs_live (from_address : Address) outs self tx
    self' :
  store_consistent self ->
  create_transaction from_address outs self = (Return tx, self') ->
  inputs tx <> []
  /\ NoDup (map reference_key (inputs tx))
  /\ (forall inp,
        In inp (inputs tx) ->
        exists u,
          get_utxo (prev_tx_id inp) (output_index inp) self
          = (Return (Some u), self)
          /\ is_spendable_by u from_address = true
          /\ inp = txin_of u)
  /\ outputs tx = outs
  /\ signatures tx = []
  /\ tx_id tx = Some (Transaction_calculate_hash tx).
Proof.
  intros Hc Hrun. apply create_transaction_returned in Hrun.
  destruct Hrun as [_ [n [[Hn1 Hn2] Htx]]].
  rewrite Htx. cbn [inputs outputs signatures tx_id].
  split; [|split; [|split; [|repeat split]]].
  - destruct (sender_utxos self from_address) as [|u r]; [simpl in Hn2; lia|].
    destruct n; [lia|]. discriminate.
  - rewrite map_map.
    change (fun x => reference_key (txin_of x))
      with (fun u : @UTXO amount =>
              utxo_key (utxo_tx_id u) (utxo_output_index u)).
    apply NoDup_map_firstn. apply NoDup_map_filter.
    apply consistent_value_keys. exact Hc.
  - intros inp Hin. apply in_map_iff in Hin. destruct Hin as [u [<- Hu]].
    apply In_firstn in Hu. apply filter_In in Hu. destruct Hu as [Hu Hown].
    exists u. split; [|split; [exact Hown|reflexivity]].
    unfold get_utxo, bind, read, ret. cbn [txin_of prev_tx_id output_index].
    rewrite (consistent_value_live self u Hc Hu). reflexivity.
  - rewrite <- Htx. reflexivity.
Qed.

(** X14: A transaction fresh from [create_transaction] does not verify, whatever
    the lookup does, and it verifies once signed with the secret that the
    lookup finds for its inputs. *)
Theorem created_transaction_needs_signature (from_address : Address) outs self
    tx self' key_lookup :
  create_transaction from_address outs self = (Return tx, self') ->
  verify_transaction tx key_lookup = Return false
  /\ (forall s,
        (forall inp, In inp (inputs tx) ->
                     key_lookup inp = LookupReturn (Some s)) ->
        verify_transaction (sign_transaction s tx) key_lookup = Return true).
Proof.
  intros Hrun. apply create_transaction_returned in Hrun.
  destruct Hrun as [_ [n [[Hn1 Hn2] Htx]]]. split.
  - unfold verify_transaction, Transaction_verify. rewrite Htx.
    cbn [inputs signatures].
    destruct (sender_utxos self from_address) as [|u r]; [simpl in Hn2; lia|].
    destruct n; [lia|]. reflexivity.
  - intros s Hlook. unfold verify_transaction, Transaction_verify.
    rewrite sign_transaction_hash, sign_transaction_inputs.
    rewrite (signed_verify_loop tx s key_lookup Hlook). reflexivity.
Qed.

(** ** Verification and signing, continued *)

Lemma enumerate_from_snd {A : Type} (l : list A) (start : Z) :
  map snd (enumerate_from start l) = l.
Proof.
  revert start; induction l as [|x r IH]; intros start; simpl;
    [reflexivity|]. rewrite IH. reflexivity.
Qed.

(** X15: The edges of [verify_transaction]: a transaction without inputs verifies
    without the lookup being consulted; a first input without a recorded
    signature, or with a signature other than the digest for the secret
    found, makes it return false; an exception that the lookup raises on
    a signed first input comes out as invalid-transaction when its class is
    under [Exception], carrying the transaction and the message of that
    exception or the default message when that one is empty, and comes out
    as it is when its class is outside [Exception]; and every exception
    that [verify_transaction] raises is one of these two, for a lookup that
    raised on one of the inputs. *)
Theorem verify_transaction_edge_cases tx key_lookup :
  (inputs tx = [] -> verify_transaction tx key_lookup = Return true)
  /\ (forall inp rest,
        inputs tx = inp :: rest ->
        dict_get (signatures tx) 0 = None ->
        verify_transaction tx key_lookup = Return false)
  /\ (forall inp rest secret sig,
        inputs tx = inp :: rest ->
        dict_get (signatures tx) 0 = Some sig ->
        key_lookup inp = LookupReturn (Some secret) ->
        sha256_digest (secret ++ Transaction_calculate_hash tx) <> sig ->
        verify_transaction tx key_lookup = Return false)
  /\ (forall inp rest sig msg,
        inputs tx = inp :: rest ->
        dict_get (signatures tx) 0 = Some sig ->
        key_lookup inp = LookupRaise msg ->
        verify_transaction tx key_lookup
        = Raise (InvalidTransactionException tx
                   (if String.eqb msg "" then "Invalid transaction" else msg)))
  /\ (forall inp rest sig name,
        inputs tx = inp :: rest ->
        dict_get (signatures tx) 0 = Some sig ->
        key_lookup inp = LookupAbort name ->
        verify_transaction tx key_lookup = Raise (BaseException name))
  /\ (forall e,
        verify_transaction tx key_lookup = Raise e ->
        exists inp,
          In inp (inputs tx)
          /\ ((exists msg,
                 key_lookup inp = LookupRaise msg
                 /\ e = InvalidTransactionException tx
                          (if String.eqb msg "" then "Invalid transaction"
                           else msg))
              \/ (exists name,
                    key_lookup inp = LookupAbort name
                    /\ e = BaseException name)))
  /\ verify_transaction tx key_lookup <> OutOfFuel.
Proof.
  unfold verify_transaction, Transaction_verify, enumerate.
  split; [|split; [|split; [|split; [|split; [|split]]]]].
  - intros ->. reflexivity.
  - intros inp rest -> Hsig. cbn [enumerate_from verify_loop].
    rewrite Hsig. reflexivity.
  - intros inp rest secret sig -> Hsig Hlook Hdiff.
    cbn [enumerate_from verify_loop]. rewrite Hsig, Hlook.
    destruct (String.eqb_spec
                (sha256_digest (secret ++ Transaction_calculate_hash tx)) sig);
      [contradiction|reflexivity].
  - intros inp rest sig msg -> Hsig Hlook.
    cbn [enumerate_from verify_loop]. rewrite Hsig, Hlook. reflexivity.
  - intros inp rest sig name -> Hsig Hlook.
    cbn [enumerate_from verify_loop]. rewrite Hsig, Hlook. reflexivity.
  - intros e.
    destruct (verify_loop (signatures tx) (Transaction_calculate_hash tx)
                key_lookup (enumerate_from 0 (inputs tx))) as [b|r] eqn:Hl;
      [discriminate|].
    apply verify_loop_raise_origin in Hl.
    destruct Hl as [inp [Hin Hraise]]. rewrite enumerate_from_snd in Hin.
    destruct r as [msg|name]; intros [= <-]; exists inp;
      (split; [exact Hin|]); [left|right]; eauto.
  - destruct (verify_loop _ _ _ _) as [b|[msg|name]]; discriminate.
Qed.

Lemma add_signature_same tx (idx : Z) (sig : string) :
  dict_get (signatures tx) idx = Some sig -> add_signature tx idx sig = tx.
Proof.
  intros Hsig. unfold add_signature.
  rewrite dict_setitem_same_value by exact Hsig. destruct tx; reflexivity.
Qed.

Lemma sign_fold_same (sig : string) (l : list (Z * TxIn)) tx :
  (forall idx inp, In (idx, inp) l -> dict_get (signatures tx) idx = Some sig) ->
  fold_left (fun t '(idx, _) => add_signature t idx sig) l tx = tx.
Proof.
  induction l as [|[idx inp] r IH]; intros Hall; [reflexivity|].
  cbn [fold_left]. rewrite add_signature_same.
  - apply IH. intros i x Hin. apply (Hall i x). right. exact Hin.
  - apply (Hall idx inp). left. reflexivity.
Qed.

Lemma sign_fold_fresh (sig : string) (ins : list TxIn) (start : Z) tx :
  (forall i, (i < List.length ins)%nat ->
             dict_get (signatures tx) (start + Z.of_nat i) = None) ->
  signatures
    (fold_left (fun t '(idx, _) => add_signature t idx sig)
               (enumerate_from start ins) tx)
  = List.app (signatures tx)
             (map (fun p => (fst p, sig)) (enumerate_from start ins)).
Proof.
  revert start tx; induction ins as [|inp r IH]; intros start tx Hfresh.
  - simpl. rewrite app_nil_r. reflexivity.
  - cbn [enumerate_from fold_left map fst]. rewrite IH.
    + cbn [add_signature signatures]. rewrite dict_setitem_absent.
      * rewrite <- app_assoc. reflexivity.
      * specialize (Hfresh 0%nat ltac:(simpl; lia)).
        rewrite Z.add_0_r in Hfresh. exact Hfresh.
    + intros i Hi. cbn [add_signature signatures].
      rewrite dict_get_setitem_other by lia.
      specialize (Hfresh (S i) ltac:(simpl; lia)).
      replace (start + 1 + Z.of_nat i) with (start + Z.of_nat (S i)) by lia.
      exact Hfresh.
Qed.

(** X16: [sign_transaction] changes nothing but the signatures: on an unsigned
    transaction it records exactly one signature per input index, in order,
    each the digest of the secret followed by the canonical hash; and signing
    a second time with the same secret changes nothing more. *)
Theorem sign_transaction_layout (s : string) tx :
  tx_id (sign_transaction s tx) = tx_id tx
  /\ inputs (sign_transaction s tx) = inputs tx
  /\ outputs (sign_transaction s tx) = outputs tx
  /\ (signatures tx = [] ->
      signatures (sign_transaction s tx)
      = map (fun p => (fst p,
                       sha256_digest (s ++ Transaction_calculate_hash tx)))
            (enumerate (inputs tx)))
  /\ sign_transaction s (sign_transaction s tx) = sign_transaction s tx.
Proof.
  destruct (sign_fold_frame
              (sha256_digest (s ++ Transaction_calculate_hash tx))
              (enumerate (inputs tx)) tx) as [Hid [Hin Hout]].
  split; [exact Hid|]. split; [exact Hin|]. split; [exact Hout|]. split.
  - intros Hnone. unfold sign_transaction, enumerate.
    rewrite sign_fold_fresh; [rewrite Hnone; reflexivity|].
    intros i _. rewrite Hnone. reflexivity.
  - unfold sign_transaction at 1.
    rewrite sign_transaction_hash, sign_transaction_inputs.
    apply sign_fold_same. intros idx inp Hmem.
    unfold sign_transaction. eapply sign_fold_signs. exact Hmem.
Qed.

(** ** From one transaction to the next *)

Lemma created_input_live (from_address : Address) outs self tx self' inp :
  store_consistent self ->
  create_transaction from_address outs self = (Return tx, self') ->
  In inp (inputs tx) ->
  exists u, dict_get (utxo_set self) (reference_key inp) = Some u.
Proof.
  intros Hc Hrun Hin. apply create_transaction_returned in Hrun.
  destruct Hrun as [_ [n [_ Htx]]]. rewrite Htx in Hin. cbn [inputs] in Hin.
  apply in_map_iff in Hin. destruct Hin as [u [<- Hu]].
  apply In_firstn in Hu. apply filter_In in Hu. destruct Hu as [Hu _].
  exists u. exact (consistent_value_live self u Hc Hu).
Qed.

(** X17: No UTXO is selected twice across mined transactions: once a transaction
    whose output keys differ from its input keys has been mined on a store
    that satisfies the invariant, its inputs are gone from the store, and no
    transaction that [create_transaction] returns afterwards references any
    of them. *)
Theorem spent_inputs_not_selected_again pow now fuel tx1 validator self blk
    self1 (from_address : Address) outs tx2 self2 :
  store_consistent self ->
  (forall inp i,
      In inp (inputs tx1) -> (i < List.length (outputs tx1))%nat ->
      reference_key inp <> utxo_key (tx_id tx1) (Z.of_nat i)) ->
  mine_block pow now fuel [tx1] validator self = (Return blk, self1) ->
  create_transaction from_address outs self1 = (Return tx2, self2) ->
  (forall inp1,
      In inp1 (inputs tx1) ->
      get_utxo (prev_tx_id inp1) (output_index inp1) self1
      = (Return None, self1))
  /\ (forall inp1 inp2,
        In inp1 (inputs tx1) -> In inp2 (inputs tx2) ->
        reference_key inp1 <> reference_key inp2).
Proof.
  intros Hc Hfresh Hmine Hcreate. apply mine_block_sealed in Hmine.
  destruct Hmine as [root [m [_ [_ [_ [_ Hself1]]]]]].
  assert (Hutxo : utxo_set self1 = apply_to_utxos tx1 (utxo_set self)).
  { rewrite Hself1. reflexivity. }
  assert (Hgone : forall inp1, In inp1 (inputs tx1) ->
            dict_get (utxo_set self1) (reference_key inp1) = None).
  { intros inp1 Hin1. rewrite Hutxo.
    destruct (apply_to_utxos_effect tx1 (utxo_set self)) as [_ [Hspent _]].
    apply Hspent; [exact Hin1|]. intros i Hi. apply Hfresh; assumption. }
  assert (Hc1 : store_consistent self1).
  { eapply consistent_same_utxos;
      [|apply (consistent_apply_to_utxos tx1 self Hc)].
    rewrite Hutxo. reflexivity. }
  split.
  - intros inp1 Hin1. unfold get_utxo, bind, read, ret.
    fold (reference_key inp1). rewrite (Hgone inp1 Hin1). reflexivity.
  - intros inp1 inp2 Hin1 Hin2 Heq.
    destruct (created_input_live _ _ _ _ _ inp2 Hc1 Hcreate Hin2) as [u Hu].
    rewrite <- Heq, (Hgone inp1 Hin1) in Hu. discriminate.
Qed.

(** ** Wallets *)

(** X18: [create_wallet] derives the keys from the name alone: the wallet it
    returns does not depend on the wallets already held; it is then found
    under the name, the other names are untouched, and creating it again
    returns the same wallet and leaves the dictionary as it is. *)
Theorem create_wallet_by_name_alone (wallets : pydict string Wallet)
    (name : string) :
  dict_get (snd (create_wallet wallets name)) name
  = Some (fst (create_wallet wallets name))
  /\ (forall other,
        other <> name ->
        dict_get (snd (create_wallet wallets name)) other
        = dict_get wallets other)
  /\ (forall held : pydict string Wallet,
        fst (create_wallet held name) = fst (create_wallet wallets name))
  /\ create_wallet (snd (create_wallet wallets name)) name
     = create_wallet wallets name
  /\ wallet_priv (fst (create_wallet wallets name))
     = sha256_hexdigest (name ++ "_priv")
  /\ wallet_address (fst (create_wallet wallets name))
     = from_public_key
         (sha256_hexdigest (sha256_hexdigest (name ++ "_priv") ++ "_pub")).
Proof.
  unfold create_wallet. cbn [fst snd].
  split; [apply dict_get_setitem_same|].
  split; [intros other Hne; apply dict_get_setitem_other; exact Hne|].
  split; [reflexivity|]. split; [|split; reflexivity].
  f_equal. apply dict_setitem_same_value. apply dict_get_setitem_same.
Qed.

End LedgerFacts.

(** ** Floats of small integers

    Below [2^53] the conversion of a non-negative [int] to a float, the
    sum of two such floats and their comparison with an [int] are exact. *)

Lemma iter_pos_nat {A : Type} (f : A -> A) (p : positive) (x : A) :
  iter_pos f p x = Nat.iter (Pos.to_nat p) f x.
Proof.
  revert x; induction p as [p IH|p IH|]; intros x; cbn [iter_pos].
  - rewrite !IH.
    replace (Pos.to_nat p~1) with (Pos.to_nat p + (Pos.to_nat p + 1))%nat by lia.
    rewrite !Nat.iter_add. reflexivity.
  - rewrite !IH.
    replace (Pos.to_nat p~0) with (Pos.to_nat p + Pos.to_nat p)%nat by lia.
    rewrite Nat.iter_add. reflexivity.
  - reflexivity.
Qed.

Lemma pos_iter_pshl (m d : positive) : Pos.iter xO m d = pshl m (Pos.to_nat d).
Proof. unfold pshl. rewrite Pos2Nat.inj_iter. 
  induction (Pos.to_nat d); simpl; congruence. Qed.

Lemma pshl_pshl m j k : pshl (pshl m j) k = pshl m (j + k).
Proof. unfold pshl. rewrite Nat.add_comm, Nat.iter_add. reflexivity. Qed.

Lemma pshl_succ m k : pshl m (S k) = xO (pshl m k).
Proof. reflexivity. Qed.

Lemma ndigits_pshl m k : ndigits (pshl m k) = (ndigits m + k)%nat.
Proof.
  unfold ndigits. induction k as [|k IH]; [simpl; lia|].
  rewrite pshl_succ. simpl. rewrite Pos2Nat.inj_succ, IH. lia.
Qed.

Lemma pshl_Z m k : Zpos (pshl m k) = Zpos m * 2 ^ Z.of_nat k.
Proof.
  induction k as [|k IH]; [simpl; lia|].
  rewrite pshl_succ, Pos2Z.inj_xO, IH, Nat2Z.inj_succ, Z.pow_succ_r by lia. lia.
Qed.

Lemma pshl_add a b k : (pshl a k + pshl b k)%positive = pshl (a + b) k.
Proof.
  apply Pos2Z.inj. rewrite Pos2Z.inj_add, !pshl_Z, Pos2Z.inj_add. lia.
Qed.

Lemma shr_exact (k : nat) (m : positive) :
  Nat.iter k shr_1 {| shr_m := Zpos (pshl m k); shr_r := false; shr_s := false |}
  = {| shr_m := Zpos m; shr_r := false; shr_s := false |}.
Proof.
  revert m; induction k as [|k IH]; intros m; [reflexivity|].
  rewrite Nat.iter_succ_r. rewrite pshl_succ. simpl shr_1.
  apply IH.
Qed.

Lemma digits_pshl_Z (N : positive) (k : nat) :
  Zpos (digits2_pos (pshl N k)) = Z.of_nat (ndigits N + k).
Proof.
  rewrite <- ndigits_pshl. unfold ndigits. rewrite positive_nat_Z. reflexivity.
Qed.

Lemma ndigits_pos (N : positive) : (1 <= ndigits N)%nat.
Proof. unfold ndigits. lia. Qed.

Lemma shr_fexp_small (N : positive) (k : nat) :
  (ndigits N <= 53)%nat -> (53 <= ndigits N + k)%nat ->
  shr_fexp 53 1024 (Zpos (pshl N k)) (- Z.of_nat k) loc_Exact
  = ({| shr_m := Zpos (pshl N (53 - ndigits N)); shr_r := false;
        shr_s := false |},
     Z.of_nat (ndigits N) - 53).
Proof.
  intros Hd Hk. unfold shr_fexp. cbn [Zdigits2 shr_record_of_loc].
  rewrite digits_pshl_Z.
  replace (fexp 53 1024 (Z.of_nat (ndigits N + k) + - Z.of_nat k)
           - - Z.of_nat k)
    with (Z.of_nat (ndigits N + k - 53)) by (unfold fexp, emin; lia).
  assert (Hsplit : pshl N k = pshl (pshl N (53 - ndigits N)) (ndigits N + k - 53)).
  { rewrite pshl_pshl. f_equal. lia. }
  unfold shr. destruct (Z.of_nat (ndigits N + k - 53)) as [|p|p] eqn:Hp.
  - assert (k = 53 - ndigits N)%nat as -> by lia. f_equal. lia.
  - rewrite iter_pos_nat.
    assert (Hpn : Pos.to_nat p = (ndigits N + k - 53)%nat) by lia.
    rewrite Hpn, Hsplit, shr_exact. f_equal. lia.
  - lia.
Qed.

Lemma binary_round_aux_small (N : positive) (k : nat) :
  (ndigits N <= 53)%nat -> (53 <= ndigits N + k)%nat ->
  binary_round_aux 53 1024 false (Zpos (pshl N k)) (- Z.of_nat k) loc_Exact
  = canon N.
Proof.
  intros Hd Hk. unfold binary_round_aux.
  rewrite (shr_fexp_small N k Hd Hk).
  cbn [shr_m loc_of_shr_record round_nearest_even].
  replace (Z.of_nat (ndigits N) - 53) with (- Z.of_nat (53 - ndigits N)) by lia.
  rewrite (shr_fexp_small N (53 - ndigits N) Hd ltac:(lia)).
  cbn [shr_m].
  replace (Z.of_nat (ndigits N) - 53 <=? 1024 - 53) with true
    by (symmetry; apply Z.leb_le; lia).
  reflexivity.
Qed.

Lemma binary_round_small (N : positive) (k : nat) :
  (ndigits N <= 53)%nat ->
  binary_round 53 1024 false (pshl N k) (- Z.of_nat k) = canon N.
Proof.
  intros Hd. unfold binary_round. rewrite digits_pshl_Z.
  replace (fexp 53 1024 (Z.of_nat (ndigits N + k) + - Z.of_nat k))
    with (Z.of_nat (ndigits N) - 53) by (unfold fexp, emin; lia).
  unfold shl_align.
  destruct (Z.of_nat (ndigits N) - 53 - - Z.of_nat k) as [|p|p] eqn:Hs.
  - apply binary_round_aux_small; lia.
  - apply binary_round_aux_small; lia.
  - rewrite pos_iter_pshl, pshl_pshl.
    replace (Z.of_nat (ndigits N) - 53)
      with (- Z.of_nat (k + Pos.to_nat p)) by lia.
    apply binary_round_aux_small; lia.
Qed.

Lemma digits2_size (m : positive) : digits2_pos m = Pos.size m.
Proof. induction m as [m IH|m IH|]; simpl; congruence. Qed.

Lemma small_ndigits (m : positive) : small (Zpos m) -> (ndigits m <= 53)%nat.
Proof.
  intros [_ Hlt]. unfold ndigits. rewrite digits2_size.
  pose proof (Pos.size_le m) as Hle.
  assert (Hz : 2 ^ Zpos (Pos.size m) <= 2 * Zpos m).
  { rewrite <- Pos2Z.inj_pow. change (2 * Zpos m) with (Zpos m~0).
    apply Pos2Z.pos_le_pos. exact Hle. }
  assert (Hpow : 2 ^ Zpos (Pos.size m) < 2 ^ 54).
  { change (2 ^ 54) with (2 * 2 ^ 53). lia. }
  apply Z.pow_lt_mono_r_iff in Hpow; lia.
Qed.

Lemma float_of_int_small (n : Z) :
  small n -> float_of_int n = Some (small_float n).
Proof.
  intros Hn. unfold float_of_int. destruct n as [|m|m].
  - reflexivity.
  - cbn [binary_normalize small_float].
    change (binary_round 53 1024 false m 0)
      with (binary_round 53 1024 false (pshl m 0) (- Z.of_nat 0)).
    rewrite binary_round_small by (apply small_ndigits; exact Hn).
    reflexivity.
  - destruct Hn. lia.
Qed.

Lemma shl_align_canon (m : positive) (ez : Z) :
  (ndigits m <= 53)%nat -> ez <= Z.of_nat (ndigits m) - 53 ->
  fst (shl_align (pshl m (53 - ndigits m)) (Z.of_nat (ndigits m) - 53) ez)
  = pshl m (Z.to_nat (- ez)).
Proof.
  intros Hd He. unfold shl_align.
  destruct (ez - (Z.of_nat (ndigits m) - 53)) as [|p|p] eqn:Hs; cbn [fst].
  - f_equal. lia.
  - lia.
  - rewrite pos_iter_pshl, pshl_pshl. f_equal. lia.
Qed.

Lemma SFadd_small (s a : Z) :
  small s -> small a -> small (s + a) ->
  SFadd 53 1024 (small_float s) (small_float a) = small_float (s + a).
Proof.
  intros Hs Ha Hsa.
  destruct s as [|ms|ms]; [|destruct a as [|ma|ma]|destruct Hs; lia].
  - destruct a as [|ma|ma]; [reflexivity|reflexivity|destruct Ha; lia].
  - rewrite Z.add_0_r. reflexivity.
  - pose proof (small_ndigits ms Hs) as Hds.
    pose proof (small_ndigits ma Ha) as Hda.
    change (Zpos ms + Zpos ma) with (Zpos (ms + ma)) in *.
    pose proof (small_ndigits (ms + ma) Hsa) as Hdsa.
    cbn [small_float]. unfold canon at 1 2. cbn [SFadd].
    cbv zeta. cbn [cond_Zopp].
    set (ez := Z.min (Z.of_nat (ndigits ms) - 53) (Z.of_nat (ndigits ma) - 53)).
    rewrite (shl_align_canon ms ez Hds) by (unfold ez; lia).
    rewrite (shl_align_canon ma ez Hda) by (unfold ez; lia).
    rewrite <- Pos2Z.inj_add, pshl_add. cbn [binary_normalize].
    replace ez with (- Z.of_nat (Z.to_nat (- ez))) at 2 by (unfold ez; lia).
    apply binary_round_small. exact Hdsa.
  - destruct Ha; lia.
Qed.

Lemma Z_mul_compare_r (a b c : Z) : 0 < c -> (a * c ?= b * c) = (a ?= b).
Proof.
  intros Hc. destruct (Z.compare_spec a b) as [->|Hlt|Hgt].
  - apply Z.compare_refl.
  - apply Z.compare_lt_iff. nia.
  - apply Z.compare_gt_iff. nia.
Qed.

Lemma float_compare_int_small (n r : Z) :
  small n -> float_compare_int (small_float n) r = Some (n ?= r).
Proof.
  intros Hn. destruct n as [|m|m]; [reflexivity| |destruct Hn; lia].
  pose proof (small_ndigits m Hn) as Hd.
  cbn [small_float]. unfold canon, float_compare_int. cbn [cond_Zopp].
  f_equal. rewrite pshl_Z.
  destruct (0 <=? Z.of_nat (ndigits m) - 53) eqn:He.
  - apply Z.leb_le in He.
    assert (ndigits m = 53)%nat as -> by lia. simpl (53 - 53)%nat.
    simpl (Z.of_nat 53 - 53). rewrite !Z.pow_0_r, !Z.mul_1_r. reflexivity.
  - replace (- (Z.of_nat (ndigits m) - 53)) with (Z.of_nat (53 - ndigits m))
      by lia.
    apply Z_mul_compare_r. apply Z.pow_pos_nonneg; lia.
Qed.

(** ** Integer amounts *)

Section IntegerAmounts.
Context `{Sha256}.
#[local] Existing Instance Z_PyNumber.

Implicit Types (self : @InMemoryLedgerRepository Z).
Implicit Types (utxos : list (@UTXO Z)) (outs : list (@TxOut Z)).

Lemma float_ge_small (n r : Z) :
  small n -> float_ge (small_float n) (PyInt r) = (r <=? n).
Proof.
  intros Hn. unfold float_ge, float_compare.
  rewrite float_compare_int_small by exact Hn.
  destruct (Z.compare_spec n r); symmetry;
    [apply Z.leb_le|apply Z.leb_gt|apply Z.leb_le]; lia.
Qed.

Lemma float_lt_small (n r : Z) :
  small n -> float_lt (small_float n) (PyInt r) = (n <? r).
Proof.
  intros Hn. unfold float_lt, float_compare.
  rewrite float_compare_int_small by exact Hn.
  destruct (Z.compare_spec n r); symmetry;
    [apply Z.ltb_ge|apply Z.ltb_lt|apply Z.ltb_ge]; lia.
Qed.

Lemma accumulate_cons (s : Z) (u : @UTXO Z) utxos :
  accumulate s (u :: utxos) = accumulate (s + utxo_amount u) utxos.
Proof. reflexivity. Qed.

Lemma accumulate_ge (s : Z) utxos :
  Forall (fun u => 0 <= utxo_amount u) utxos -> s <= accumulate s utxos.
Proof.
  revert s; induction utxos as [|u r IH]; intros s Hall;
    [unfold accumulate; simpl; lia|].
  inversion Hall as [|? ? Hu Hr]; subst. rewrite accumulate_cons.
  specialize (IH (s + utxo_amount u) Hr). lia.
Qed.

(** The float total of small non-negative integers is their sum. *)
Lemma float_accumulate_small (s : Z) utxos :
  0 <= s ->
  Forall (fun u => 0 <= utxo_amount u) utxos ->
  accumulate s utxos < 2 ^ 53 ->
  float_accumulate (small_float s) utxos
  = Some (small_float (accumulate s utxos)).
Proof.
  revert s; induction utxos as [|u r IH]; intros s Hs Hall Hlt;
    [reflexivity|].
  inversion Hall as [|? ? Hu Hr]; subst. rewrite accumulate_cons in *.
  pose proof (accumulate_ge (s + utxo_amount u) r Hr) as Hge.
  cbn [float_accumulate]. change (num_value (utxo_amount u))
    with (PyInt (utxo_amount u)). cbn [float_iadd].
  rewrite float_of_int_small by (unfold small; lia).
  rewrite SFadd_small by (unfold small; lia).
  apply IH; [lia|exact Hr|exact Hlt].
Qed.

Lemma running_total_small utxos (m : nat) :
  Forall (fun u => 0 <= utxo_amount u) utxos ->
  accumulate 0 utxos < 2 ^ 53 ->
  running_total utxos m = Some (small_float (accumulate 0 (firstn m utxos)))
  /\ 0 <= accumulate 0 (firstn m utxos) <= accumulate 0 utxos.
Proof.
  intros Hall Hlt.
  rewrite <- (firstn_skipn m utxos) in Hall. apply Forall_app in Hall.
  destruct Hall as [Hfirst Hrest].
  assert (Hbounds : 0 <= accumulate 0 (firstn m utxos) <= accumulate 0 utxos).
  { split; [apply accumulate_ge; exact Hfirst|].
    rewrite <- (firstn_skipn m utxos) at 2. rewrite accumulate_app.
    apply accumulate_ge. exact Hrest. }
  split; [|exact Hbounds].
  unfold running_total. change float_zero with (small_float 0).
  apply float_accumulate_small; [lia|exact Hfirst|lia].
Qed.

(** X12: For integer amounts that are non-negative, with a balance below [2^53],
    [create_transaction] raises exactly when the sender has no live UTXO
    or the balance that [get_balance] reports is below the sum of the
    requested outputs. What it raises is insufficient-funds for the sender
    with that sum as required amount and, as available amount, [0] for a
    sender without UTXOs and otherwise the float whose value is the
    balance; the store is as before. *)
Theorem create_transaction_raises_balance (from_address : Address) outs self
    (balance : Z) :
  Forall (fun u => 0 <= utxo_amount u) (sender_utxos self from_address) ->
  get_balance from_address self = (Return balance, self) ->
  balance < 2 ^ 53 ->
  ((exists e, fst (create_transaction from_address outs self) = Raise e)
   <-> sender_utxos self from_address = []
       \/ balance < py_sum (map out_amount outs))
  /\ (forall e self',
        create_transaction from_address outs self = (Raise e, self') ->
        self' = self
        /\ exists available,
             e = InsufficientFundsException from_address
                   (py_sum (map out_amount outs)) available
             /\ ((sender_utxos self from_address = []
                  /\ available = PyInt 0)
                 \/ (sender_utxos self from_address <> []
                     /\ exists total,
                          float_of_int balance = Some total
                          /\ available = PyFloat total)))
  /\ (sender_utxos self from_address <> [] ->
      py_sum (map out_amount outs) <= balance ->
      exists tx, create_transaction from_address outs self = (Return tx, self)).
Proof.
  intros Hnonneg Hbal Hsmall. rewrite get_balance_run in Hbal.
  injection Hbal as <-.
  set (utxos := sender_utxos self from_address) in *.
  set (required := py_sum (map out_amount outs)).
  change (@num_zero Z Z_PyNumber) with 0 in *.
  rewrite create_transaction_run. fold utxos required.
  destruct utxos as [|u r] eqn:Hu.
  - split; [|split].
    + split; [left; reflexivity|]. intros _. eexists. reflexivity.
    + intros e self' [= <- <-]. split; [reflexivity|].
      eexists. split; [reflexivity|]. left. split; reflexivity.
    + intros Hne. contradiction.
  - rewrite <- Hu in *.
    assert (Hne : utxos <> []) by (rewrite Hu; discriminate).
    destruct (loop_outcome required utxos Hne) as [n [Hends Hrun]].
    destruct (running_total_small utxos n Hnonneg Hsmall) as [Htotal Hbounds].
    rewrite Htotal in Hrun. rewrite Hrun.
    change (num_value required) with (PyInt required).
    assert (Hn : small (accumulate 0 (firstn n utxos))) by (unfold small; lia).
    rewrite (float_lt_small _ required Hn).
    destruct (accumulate 0 (firstn n utxos) <? required) eqn:Hlt.
    + apply Z.ltb_lt in Hlt.
      assert (Hlen : n = List.length utxos).
      { destruct Hends as [Hrange [_ Hstop]].
        destruct (Nat.lt_ge_cases n (List.length utxos)) as [Hless|Hge];
          [|lia].
        exfalso. apply (Hstop Hless). eexists. split; [exact Htotal|].
        change (num_value required) with (PyInt required).
        rewrite (float_ge_small _ required Hn). apply Z.leb_gt. exact Hlt. }
      rewrite Hlen, firstn_all in *.
      split; [|split].
      * split; [right; exact Hlt|]. intros _. eexists. reflexivity.
      * intros e self' [= <- <-]. split; [reflexivity|].
        eexists. split; [reflexivity|]. right. split; [exact Hne|].
        eexists. split; [apply float_of_int_small; exact Hn|reflexivity].
      * intros _ Hle. lia.
    + apply Z.ltb_ge in Hlt. split; [|split].
      * split; [intros [e He]; discriminate|].
        intros [Hnone|Hshort]; [contradiction|lia].
      * intros e self' Hraise. discriminate.
      * intros _ _. eexists. reflexivity.
Qed.
End IntegerAmounts.

(** ** The message bus *)

Section BusFacts.
Context {W Ev : Type}.
Implicit Types (bus : MessageBus W Ev) (h : handler W Ev) (w : W) (event : Ev).

Lemma run_handlers_app (hs1 hs2 : list (handler W Ev)) event w :
  run_handlers (List.app hs1 hs2) event w
  = match run_handlers hs1 event w with
    | Done w' => run_handlers hs2 event w'
    | Failed msg w' => Failed msg w'
    end.
Proof.
  revert w; induction hs1 as [|h r IH]; intros w; simpl; [reflexivity|].
  destruct (h event w) as [w'|msg w']; [apply IH|reflexivity].
Qed.

(** X19: Publishing on a bus without subscribers changes nothing. A handler
    subscribed to an event type runs after the handlers subscribed to that
    type before it, on the world they leave, and does not run when one of
    them raises; publishing any other event type is as before the
    subscription. *)
Theorem publish_after_subscribe bus (event_type : string) h event w :
  publish (@new_bus W Ev) event_type event w = Done w
  /\ publish (subscribe bus event_type h) event_type event w
     = match publish bus event_type event w with
       | Done w' => h event w'
       | Failed msg w' => Failed msg w'
       end
  /\ (forall other,
        other <> event_type ->
        publish (subscribe bus event_type h) other event w
        = publish bus other event w).
Proof.
  split; [reflexivity|]. unfold publish, subscribe. split.
  - destruct (dict_get bus event_type) as [hs|] eqn:Hg;
      rewrite dict_get_setitem_same.
    + rewrite run_handlers_app. simpl.
      destruct (run_handlers hs event w) as [w'|msg w']; [|reflexivity].
      destruct (h event w'); reflexivity.
    + simpl. destruct (h event w); reflexivity.
  - intros other Hne.
    destruct (dict_get bus event_type) as [hs|];
      rewrite dict_get_setitem_other by exact Hne; reflexivity.
Qed.
End BusFacts.

(** ** The unit of work *)

Section UnitOfWorkFacts.
Context {R Item : Type}.
Variable add : R -> Item -> R + (string * R).
Implicit Types (repo : R) (items : list Item).

Lemma staged_after_stage (self : @InMemoryUoW R Item) items :
  fold_left stage items self
  = {| uow_repo := uow_repo self; staged := List.app (staged self) items |}.
Proof.
  revert self; induction items as [|x r IH]; intros self.
  - simpl. rewrite app_nil_r. destruct self; reflexivity.
  - cbn [fold_left]. rewrite IH. cbn [stage uow_repo staged].
    rewrite <- app_assoc. reflexivity.
Qed.

Lemma add_all_app repo (pre post : list Item) :
  add_all add repo (List.app pre post)
  = match add_all add repo pre with
    | inl repo' => add_all add repo' post
    | inr failure => inr failure
    end.
Proof.
  revert repo; induction pre as [|x r IH]; intros repo; simpl; [reflexivity|].
  destruct (add repo x) as [repo'|failure]; [apply IH|reflexivity].
Qed.

(** X20: Items staged one after the other on a new unit of work are added by
    [commit] in the order of staging, when every [add] succeeds; the staged
    list is then empty, so a second [commit] adds nothing. [rollback], and
    leaving the block on an exception, drop them and leave the repository
    as it was; without a repository [commit] drops them as well. *)
Theorem stage_then_commit repo repo' items :
  add_all add repo items = inl repo' ->
  commit add (fold_left stage items (new_uow (Some repo)))
  = inl {| uow_repo := Some repo'; staged := [] |}
  /\ commit add {| uow_repo := Some repo'; staged := [] |}
     = inl {| uow_repo := Some repo'; staged := [] |}
  /\ uow_exit add (fold_left stage items (new_uow (Some repo))) false
     = inl {| uow_repo := Some repo'; staged := [] |}
  /\ uow_exit add (fold_left stage items (new_uow (Some repo))) true
     = inl {| uow_repo := Some repo; staged := [] |}
  /\ rollback (fold_left stage items (new_uow (Some repo)))
     = new_uow (Some repo)
  /\ commit add (fold_left stage items (new_uow None))
     = inl (new_uow None).
Proof.
  intros Hadd. rewrite !staged_after_stage. cbn [new_uow uow_repo staged].
  unfold uow_exit, commit, rollback. cbn [uow_repo staged List.app].
  rewrite Hadd. repeat split.
Qed.

(** X21: [commit] is not atomic: when [add] raises on an item, the exception
    leaves [commit] with the items staged before it already added and the
    staged list still complete, so a later [commit] submits those items
    again. *)
Theorem failed_commit_keeps_staged repo (pre post : list Item) (x : Item)
    repo1 repo2 (msg : string) :
  add_all add repo pre = inl repo1 ->
  add repo1 x = inr (msg, repo2) ->
  commit add {| uow_repo := Some repo; staged := List.app pre (x :: post) |}
  = inr (msg, {| uow_repo := Some repo2;
                 staged := List.app pre (x :: post) |})
  /\ commit add {| uow_repo := Some repo2;
                   staged := List.app pre (x :: post) |}
     = match add_all add repo2 pre with
       | inl repo3 =>
           match add_all add repo3 (x :: post) with
           | inl repo4 => inl {| uow_repo := Some repo4; staged := [] |}
           | inr (msg', repo4) =>
               inr (msg', {| uow_repo := Some repo4;
                             staged := List.app pre (x :: post) |})
           end
       | inr (msg', repo3) =>
           inr (msg', {| uow_repo := Some repo3;
                         staged := List.app pre (x :: post) |})
       end.
Proof.
  intros Hpre Hx. unfold commit. cbn [uow_repo staged].
  rewrite !add_all_app, Hpre. cbn [add_all]. rewrite Hx. split; [reflexivity|].
  destruct (add_all add repo2 pre) as [repo3|[msg' repo3]]; reflexivity.
Qed.
End UnitOfWorkFacts.

(** * The properties on concrete runs

    Integer amounts, the checksum digest and the example stores. *)

Section Runs.
#[local] Existing Instance Z_PyNumber.
#[local] Existing Instance checksum_Sha256.

(** On a store of two blocks, height [-1] would subscript the last block,
    and [get_block] returns [None]; so does height [2]. *)
Lemma get_block_out_of_range_witness :
  ~ (0 <= -1 < Z.of_nat (List.length (blocks ex_chain)))
  /\ list_getitem (blocks ex_chain) (-1)
     = Some {| header := set_nonce ex_header 5; transactions := [] |}
  /\ get_block (-1) ex_chain = (Return None, ex_chain)
  /\ get_block 2 ex_chain = (Return None, ex_chain).
Proof.
  split; [simpl; lia|]. split; [reflexivity|]. split.
  - apply (get_block_out_of_range ex_chain (-1)). simpl. lia.
  - apply (get_block_out_of_range ex_chain 2). simpl. lia.
Defined.

(** On the wallets store: removing an absent key, and removing alice's
    first UTXO twice. *)
Lemma remove_utxo_idempotent_witness :
  remove_utxo "zz:9" ex_wallets = (Return tt, ex_wallets)
  /\ exists self',
       remove_utxo "a:0" ex_wallets = (Return tt, self')
       /\ dict_get (utxo_set self') "a:0" = None
       /\ remove_utxo "a:0" self' = (Return tt, self').
Proof.
  split.
  - destruct (remove_utxo_idempotent ex_wallets "zz:9")
      as [self' [Hrun [Hsame _]]].
    rewrite Hrun, (Hsame eq_refl). reflexivity.
  - destruct (remove_utxo_idempotent ex_wallets "a:0")
      as [self' [Hrun [_ [Hgone Hagain]]]].
    exists self'. auto.
Defined.

(** The Merkle root of a block of three transactions. *)
Lemma calculate_merkle_root_refines_spec_witness :
  Block_calculate_merkle_root
    {| header := ex_header; transactions := [ex_spend; ex_pay; ex_spend] |}
  = Return "32"
  /\ spec_merkle_root [ex_spend; ex_pay; ex_spend] "32".
Proof.
  destruct (calculate_merkle_root_refines_spec
              {| header := ex_header;
                 transactions := [ex_spend; ex_pay; ex_spend] |})
    as [root [Hrun [Hspec _]]].
  assert (Hroot : root = "32").
  { vm_compute in Hrun. injection Hrun as <-. reflexivity. }
  subst root. split; [exact Hrun|exact Hspec].
Defined.

(** The payment of two inputs, signed with ["k"] and verified. *)
Lemma sign_verify_round_trip_witness :
  (forall inp, In inp (inputs ex_pay) ->
               constant_lookup "k" inp = LookupReturn (Some "k"))
  /\ verify_transaction (sign_transaction "k" ex_pay) (constant_lookup "k")
     = Return true.
Proof.
  split; [intros inp _; reflexivity|].
  apply (sign_verify_round_trip ex_pay "k" (constant_lookup "k")).
  intros inp _. reflexivity.
Defined.

(** Sealing at difficulty 2: the digests of nonces 0, 1, 2 are ["fd"],
    ["fe"], ["ff"], and nonce 3 gives ["00"]. *)
Lemma mine_returns_least_nonce_witness :
  1 <= pow_difficulty (ex_pow 2)
  /\ mine (ex_pow 2) 10 ex_header = Some ("00", set_nonce ex_header 3)
  /\ leading_zeros 2 "00"
  /\ (forall k, 0 <= k < 3 -> ~ leading_zeros 2 (pow_digest ex_header k)).
Proof.
  assert (Hd : 1 <= pow_difficulty (ex_pow 2)) by (simpl; lia).
  assert (Hrun : mine (ex_pow 2) 10 ex_header
                 = Some ("00", set_nonce ex_header 3))
    by (vm_compute; reflexivity).
  destruct (mine_returns_least_nonce (ex_pow 2) ex_header Hd) as [Hsound _].
  destruct (Hsound _ _ _ Hrun) as [_ [_ [_ [Hzeros Hleast]]]].
  split; [exact Hd|]. split; [exact Hrun|]. split; [exact Hzeros|].
  exact Hleast.
Defined.

(** Sealing at difficulty 0 and -3: the first digest, ["fd"], is not
    accepted. *)
Lemma mine_low_difficulty_as_one_witness :
  pow_difficulty (ex_pow 0) <= 1
  /\ pow_difficulty (ex_pow (-3)) <= 1
  /\ mine (ex_pow 0) 10 ex_header = mine (ex_pow 1) 10 ex_header
  /\ mine (ex_pow (-3)) 10 ex_header = mine (ex_pow 1) 10 ex_header
  /\ mine (ex_pow 0) 1 ex_header = None.
Proof.
  assert (H0 : pow_difficulty (ex_pow 0) <= 1) by (simpl; lia).
  assert (H3 : pow_difficulty (ex_pow (-3)) <= 1) by (simpl; lia).
  destruct (mine_low_difficulty_as_one (ex_pow 0) ex_header 10 H0)
    as [_ [Hsame0 [_ Hfirst]]].
  destruct (mine_low_difficulty_as_one (ex_pow (-3)) ex_header 10 H3)
    as [_ [Hsame3 _]].
  split; [exact H0|]. split; [exact H3|]. split; [exact Hsame0|].
  split; [exact Hsame3|]. apply Hfirst. vm_compute. discriminate.
Defined.

(** The conservation scenario: the UTXO of 100 is spent into 60 for
    bob and 40 for carol; afterwards its key is absent and the store holds
    exactly the two new UTXOs. *)
Lemma mine_block_updates_utxos_witness :
  exists blk self',
    mine_block (ex_pow 1) 17 10 [ex_spend] "v" ex_store = (Return blk, self')
    /\ dict_get (utxo_set ex_store) "t0:0" = Some (ex_utxo "t0" 0 100 ex_alice)
    /\ reference_key (ex_in "t0" 0) <> utxo_key (tx_id ex_spend) 0
    /\ reference_key (ex_in "t0" 0) <> utxo_key (tx_id ex_spend) 1
    /\ dict_get (utxo_set self') "t0:0" = None
    /\ dict_get (utxo_set self') "t1:0" = Some (ex_utxo "t1" 0 60 ex_bob)
    /\ dict_get (utxo_set self') "t1:1" = Some (ex_utxo "t1" 1 40 ex_carol)
    /\ all_utxos self'
       = (Return [ex_utxo "t1" 0 60 ex_bob; ex_utxo "t1" 1 40 ex_carol], self').
Proof.
  destruct (mine_block (ex_pow 1) 17 10 [ex_spend] "v" ex_store)
    as [[blk|e|] self'] eqn:Hrun;
    [|vm_compute in Hrun; discriminate|vm_compute in Hrun; discriminate].
  exists blk, self'. split; [reflexivity|]. split; [reflexivity|].
  assert (Hk0 : reference_key (ex_in "t0" 0) <> utxo_key (tx_id ex_spend) 0)
    by (intros Heq; vm_compute in Heq; discriminate).
  assert (Hk1 : reference_key (ex_in "t0" 0) <> utxo_key (tx_id ex_spend) 1)
    by (intros Heq; vm_compute in Heq; discriminate).
  split; [exact Hk0|]. split; [exact Hk1|].
  destruct (mine_block_updates_utxos _ _ _ _ _ _ _ _ Hrun) as [_ Hscenario].
  destruct (Hscenario ex_spend (ex_in "t0" 0) (ex_out 60 ex_bob)
              (ex_out 40 ex_carol) (ex_utxo "t0" 0 100 ex_alice)
              eq_refl eq_refl eq_refl eq_refl Hk0 Hk1)
    as [Hspent [Hfirst [Hsecond _]]].
  split; [exact Hspent|]. split; [exact Hfirst|]. split; [exact Hsecond|].
  vm_compute in Hrun. injection Hrun as _ <-. reflexivity.
Defined.


(** The transaction whose two inputs reference ["t0:0"]: signed with
    ["k"], each of its two input indices passes, and so it verifies. *)
Lemma verify_ignores_duplicate_references_witness :
  (forall i inp,
      nth_error (inputs (sign_transaction "k" ex_double_spend)) i = Some inp ->
      input_passes (sign_transaction "k" ex_double_spend)
                   (constant_lookup "k") (Z.of_nat i) inp)
  /\ verify_transaction (sign_transaction "k" ex_double_spend)
                        (constant_lookup "k") = Return true.
Proof.
  assert (Hall : forall i inp,
             nth_error (inputs (sign_transaction "k" ex_double_spend)) i
             = Some inp ->
             input_passes (sign_transaction "k" ex_double_spend)
                          (constant_lookup "k") (Z.of_nat i) inp).
  { intros i inp Hnth. exists "k". split; [reflexivity|].
    destruct i as [|[|i]]; [reflexivity|reflexivity|].
    destruct i; discriminate. }
  split; [exact Hall|].
  apply (proj2 (verify_ignores_duplicate_references
                  (sign_transaction "k" ex_double_spend)
                  (constant_lookup "k"))).
  exact Hall.
Defined.

(** Two blocks mined one after the other from the empty chain. *)
Lemma mine_block_chain_linkage_witness :
  exists blk1 self1 blk2 self2,
    mine_block (ex_pow 1) 17 10 [ex_spend] "v" ex_store = (Return blk1, self1)
    /\ mine_block (ex_pow 1) 18 200 [] "v" self1 = (Return blk2, self2)
    /\ prev_hash (header blk1)
       = "0000000000000000000000000000000000000000000000000000000000000000"
    /\ prev_hash (header blk2) = BlockHeader_calculate_hash (header blk1)
    /\ prev_hash (header blk2) = "3c"
    /\ blocks self2 = [blk1; blk2].
Proof.
  destruct (mine_block_chain_linkage (ex_pow 1) 17 10 [ex_spend] "v" ex_store)
    as [Hlink1 Hreturns1].
  destruct (Hreturns1 "88" 0 ltac:(lia) ltac:(simpl; lia) eq_refl)
    as [blk1 [self1 Hrun1]].
  { intros i Hi. assert (i = 0%nat) as -> by (simpl in Hi; lia). reflexivity. }
  destruct (Hlink1 _ _ Hrun1) as [Hgenesis [_ [Hblocks1 Hnext]]].
  destruct (mine_block (ex_pow 1) 18 200 [] "v" self1)
    as [[blk2|e|] self2] eqn:Hrun2;
    [|vm_compute in Hrun1; injection Hrun1 as _ <-;
      vm_compute in Hrun2; discriminate ..].
  destruct (mine_block_chain_linkage (ex_pow 1) 18 200 [] "v" self1)
    as [Hlink2 _].
  destruct (Hlink2 _ _ Hrun2) as [_ [_ [Hblocks2 _]]].
  exists blk1, self1, blk2, self2.
  split; [exact Hrun1|]. split; [exact Hrun2|].
  split; [exact (Hgenesis eq_refl)|].
  split; [exact (Hnext _ _ _ _ _ _ _ Hrun2)|]. split.
  - rewrite (Hnext _ _ _ _ _ _ _ Hrun2).
    vm_compute in Hrun1. injection Hrun1 as <- _. reflexivity.
  - rewrite Hblocks2, Hblocks1. reflexivity.
Defined.


(** The UTXO of 100 under ["t0:0"] is spent into 60 and 40 by a transaction
    whose [tx_id] is ["t0"]: the first output is filed under ["t0:0"], so
    the key of the spent UTXO is present afterwards. *)
Lemma mine_block_refiles_spent_key :
  (exists blk self',
      mine_block (ex_pow 1) 17 10 [ex_respend] "v" ex_store
      = (Return blk, self')
      /\ dict_get (utxo_set ex_store) (reference_key (ex_in "t0" 0))
         = Some (ex_utxo "t0" 0 100 ex_alice)
      /\ dict_get (utxo_set self') (reference_key (ex_in "t0" 0))
         = Some (ex_utxo "t0" 0 60 ex_bob)
      /\ all_utxos self'
         = (Return [ex_utxo "t0" 0 60 ex_bob; ex_utxo "t0" 1 40 ex_carol],
            self'))
  /\ ~ (forall pow now fuel validator (self : @InMemoryLedgerRepository Z)
               blk self' tx inp o1 o2 U,
          mine_block pow now fuel [tx] validator self = (Return blk, self') ->
          inputs tx = [inp] -> outputs tx = [o1; o2] ->
          dict_get (utxo_set self) (reference_key inp) = Some U ->
          utxo_amount U = 100 -> out_amount o1 = 60 -> out_amount o2 = 40 ->
          dict_get (utxo_set self') (reference_key inp) = None).
Proof.
  assert (Hrun : exists blk self',
             mine_block (ex_pow 1) 17 10 [ex_respend] "v" ex_store
             = (Return blk, self')
             /\ dict_get (utxo_set self') (reference_key (ex_in "t0" 0))
                = Some (ex_utxo "t0" 0 60 ex_bob)
             /\ all_utxos self'
                = (Return [ex_utxo "t0" 0 60 ex_bob;
                           ex_utxo "t0" 1 40 ex_carol], self')).
  { destruct (mine_block (ex_pow 1) 17 10 [ex_respend] "v" ex_store)
      as [[blk|e|] self'] eqn:Hrun;
      [|vm_compute in Hrun; discriminate|vm_compute in Hrun; discriminate].
    exists blk, self'. split; [reflexivity|].
    vm_compute in Hrun. injection Hrun as _ <-. split; reflexivity. }
  destruct Hrun as [blk [self' [Hrun [Hkept Hall]]]]. split.
  - exists blk, self'. split; [exact Hrun|]. split; [reflexivity|].
    split; [exact Hkept|exact Hall].
  - intros Hclaim.
    specialize (Hclaim (ex_pow 1) 17 10%nat "v" ex_store blk self' ex_respend
                  (ex_in "t0" 0) (ex_out 60 ex_bob) (ex_out 40 ex_carol)
                  (ex_utxo "t0" 0 100 ex_alice) Hrun eq_refl eq_refl eq_refl
                  eq_refl eq_refl eq_refl).
    rewrite Hkept in Hclaim. discriminate.
Qed.

(** The two inputs of [ex_double_spend] reference the same key, and once
    signed the transaction passes verification, whatever the digest
    function; no double-spend condition is signalled. *)
Lemma verify_accepts_double_spend :
  (exists inp1 inp2,
      nth_error (inputs ex_double_spend) 0 = Some inp1
      /\ nth_error (inputs ex_double_spend) 1 = Some inp2
      /\ reference_key inp1 = reference_key inp2)
  /\ verify_transaction (sign_transaction "k" ex_double_spend)
                        (constant_lookup "k") = Return true
  /\ (forall digest : Sha256,
        @verify_transaction digest Z Z_PyNumber
          (@sign_transaction digest Z Z_PyNumber "k" ex_double_spend)
          (constant_lookup "k") = Return true)
  /\ ~ (forall (tx : @Transaction Z) key_lookup,
          (exists i j inp1 inp2,
              i <> j
              /\ nth_error (inputs tx) i = Some inp1
              /\ nth_error (inputs tx) j = Some inp2
              /\ reference_key inp1 = reference_key inp2) ->
          exists u msg,
            verify_transaction tx key_lookup
            = Raise (DoubleSpendException u msg)).
Proof.
  split; [exists (ex_in "t0" 0), (ex_in "t0" 0); auto|].
  split; [vm_compute; reflexivity|]. split.
  - intros digest. unfold verify_transaction, Transaction_verify.
    rewrite sign_transaction_hash, sign_transaction_inputs.
    rewrite signed_verify_loop; [reflexivity|].
    intros inp _. reflexivity.
  - intros Hclaim.
    destruct (Hclaim (sign_transaction "k" ex_double_spend)
                     (constant_lookup "k")) as [u [msg Hraise]].
    + exists 0%nat, 1%nat, (ex_in "t0" 0), (ex_in "t0" 0).
      repeat split; [discriminate].
    + vm_compute in Hraise. discriminate.
Qed.
End Runs.

(** * The further properties on concrete runs *)

Section MoreRuns.
#[local] Existing Instance Z_PyNumber.
#[local] Existing Instance checksum_Sha256.

Lemma ex_wallets_consistent : store_consistent ex_wallets.
Proof.
  split.
  - unfold dict_wf. simpl. repeat constructor; simpl; intuition discriminate.
  - intros k u Hin. simpl in Hin.
    repeat (destruct Hin as [[= <- <-]|Hin]; [reflexivity|]).
    contradiction.
Qed.

(** A UTXO of 5 for bob is filed under the new key ["z:9"] and removed
    again. *)
Lemma add_then_remove_restores_witness :
  dict_get (utxo_set ex_wallets) "z:9" = None
  /\ bind (add_utxo (ex_utxo "z" 9 5 ex_bob)) (fun _ => remove_utxo "z:9")
          ex_wallets
     = (Return tt, ex_wallets).
Proof.
  split; [reflexivity|].
  apply (add_then_remove_restores ex_wallets (ex_utxo "z" 9 5 ex_bob)).
  reflexivity.
Defined.


(** Alice asks for 700 and owns 120. *)
Lemma create_transaction_raises_balance_witness :
  Forall (fun u => 0 <= utxo_amount u) (sender_utxos ex_wallets ex_alice)
  /\ get_balance ex_alice ex_wallets = (Return 120, ex_wallets)
  /\ 120 < 2 ^ 53
  /\ exists total,
       float_of_int 120 = Some total
       /\ create_transaction ex_alice [ex_out 700 ex_bob] ex_wallets
          = (Raise (InsufficientFundsException ex_alice 700 (PyFloat total)),
             ex_wallets).
Proof.
  assert (Hpos : Forall (fun u => 0 <= utxo_amount u)
                        (sender_utxos ex_wallets ex_alice))
    by (repeat constructor; simpl; lia).
  assert (Hbal : get_balance ex_alice ex_wallets = (Return 120, ex_wallets))
    by reflexivity.
  assert (Hsmall : 120 < 2 ^ 53) by reflexivity.
  split; [exact Hpos|]. split; [exact Hbal|]. split; [exact Hsmall|].
  destruct (create_transaction_raises_balance ex_alice [ex_out 700 ex_bob]
              ex_wallets 120 Hpos Hbal Hsmall) as [[_ Hraises] [Hwhat _]].
  destruct Hraises as [e He]; [right; reflexivity|].
  destruct (create_transaction ex_alice [ex_out 700 ex_bob] ex_wallets)
    as [[tx|e'|] self'] eqn:Hrun; try discriminate.
  destruct (Hwhat e' self' eq_refl)
    as [-> [available [-> [[Hnone _]|[_ [total [Htotal ->]]]]]]];
    [discriminate|].
  exists total. split; [exact Htotal|reflexivity].
Defined.

(** The payment of 70 from alice's three UTXOs. *)
Lemma create_transaction_inputs_live_witness :
  store_consistent ex_wallets
  /\ create_transaction ex_alice [ex_out 70 ex_bob] ex_wallets
     = (Return ex_pay, ex_wallets)
  /\ NoDup (map reference_key (inputs ex_pay))
  /\ (forall inp, In inp (inputs ex_pay) ->
        exists u, get_utxo (prev_tx_id inp) (output_index inp) ex_wallets
                  = (Return (Some u), ex_wallets)
                  /\ is_spendable_by u ex_alice = true
                  /\ inp = txin_of u).
Proof.
  assert (Hrun : create_transaction ex_alice [ex_out 70 ex_bob] ex_wallets
                 = (Return ex_pay, ex_wallets)) by (vm_compute; reflexivity).
  destruct (create_transaction_inputs_live ex_alice [ex_out 70 ex_bob]
              ex_wallets ex_pay ex_wallets ex_wallets_consistent Hrun)
    as [_ [Hdistinct [Hlive _]]].
  split; [exact ex_wallets_consistent|]. split; [exact Hrun|].
  split; [exact Hdistinct|exact Hlive].
Defined.

(** The payment does not verify before it is signed. *)
Lemma created_transaction_needs_signature_witness :
  create_transaction ex_alice [ex_out 70 ex_bob] ex_wallets
  = (Return ex_pay, ex_wallets)
  /\ verify_transaction ex_pay (constant_lookup "k") = Return false
  /\ verify_transaction (sign_transaction "k" ex_pay) (constant_lookup "k")
     = Return true.
Proof.
  assert (Hrun : create_transaction ex_alice [ex_out 70 ex_bob] ex_wallets
                 = (Return ex_pay, ex_wallets)) by (vm_compute; reflexivity).
  destruct (created_transaction_needs_signature ex_alice [ex_out 70 ex_bob]
              ex_wallets ex_pay ex_wallets (constant_lookup "k") Hrun)
    as [Hunsigned Hsigned].
  split; [exact Hrun|]. split; [exact Hunsigned|].
  apply Hsigned. intros inp _. reflexivity.
Defined.

(** The block mined in the conservation scenario. *)
Lemma mined_block_checks_witness :
  exists blk self',
    mine_block (ex_pow 1) 17 10 [ex_spend] "v" ex_store = (Return blk, self')
    /\ Block_verify blk = Return true
    /\ leading_zeros 1 (pow_digest (header blk) (nonce (header blk)))
    /\ timestamp (header blk) = 17.
Proof.
  destruct (mine_block (ex_pow 1) 17 10 [ex_spend] "v" ex_store)
    as [[blk|e|] self'] eqn:Hrun;
    [|vm_compute in Hrun; discriminate|vm_compute in Hrun; discriminate].
  exists blk, self'. split; [reflexivity|].
  destruct (mined_block_checks _ _ _ _ _ _ _ _ Hrun)
    as [Hverify [Hzeros [_ [_ [_ [Htime _]]]]]].
  split; [exact Hverify|]. split; [exact Hzeros|exact Htime].
Defined.


(** The wallets store keeps the invariant through a mined payment. *)
Lemma services_keep_invariant_witness :
  store_consistent ex_wallets
  /\ store_consistent (snd (mine_block (ex_pow 1) 17 300 [ex_pay] "v" ex_wallets))
  /\ store_consistent (snd (stake_block 17 [ex_pay] "v" ex_wallets)).
Proof.
  destruct (services_keep_invariant ex_wallets ex_wallets_consistent)
    as [Hmine [Hstake _]].
  split; [exact ex_wallets_consistent|]. split; [apply Hmine|apply Hstake].
Defined.

(** After the payment from alice's first two UTXOs is mined, her next
    payment takes her third one. *)
Lemma spent_inputs_not_selected_again_witness :
  exists blk self1 tx2 self2,
    store_consistent ex_wallets
    /\ mine_block (ex_pow 1) 17 300 [ex_pay] "v" ex_wallets = (Return blk, self1)
    /\ create_transaction ex_alice [ex_out 30 ex_bob] self1 = (Return tx2, self2)
    /\ inputs tx2 = [ex_in "c" 2]
    /\ get_utxo (Some "a") 0 self1 = (Return None, self1)
    /\ (forall inp1 inp2, In inp1 (inputs ex_pay) -> In inp2 (inputs tx2) ->
                          reference_key inp1 <> reference_key inp2).
Proof.
  destruct (mine_block (ex_pow 1) 17 300 [ex_pay] "v" ex_wallets)
    as [[blk|e|] self1] eqn:Hmine;
    [|vm_compute in Hmine; discriminate|vm_compute in Hmine; discriminate].
  destruct (create_transaction ex_alice [ex_out 30 ex_bob] self1)
    as [[tx2|e|] self2] eqn:Hcreate;
    [|vm_compute in Hmine; injection Hmine as _ <-;
      vm_compute in Hcreate; discriminate ..].
  assert (Hfresh : forall inp i,
             In inp (inputs ex_pay) -> (i < List.length (outputs ex_pay))%nat ->
             reference_key inp <> utxo_key (tx_id ex_pay) (Z.of_nat i)).
  { intros inp i Hin Hi. assert (i = 0%nat) as -> by (simpl in Hi; lia).
    simpl in Hin. destruct Hin as [<-|[<-|[]]]; discriminate. }
  destruct (spent_inputs_not_selected_again _ _ _ _ _ _ _ _ _ _ _ _
              ex_wallets_consistent Hfresh Hmine Hcreate) as [Hgone Hapart].
  exists blk, self1, tx2, self2.
  split; [exact ex_wallets_consistent|]. split; [reflexivity|].
  split; [exact Hcreate|]. split.
  - vm_compute in Hmine. injection Hmine as _ <-.
    vm_compute in Hcreate. injection Hcreate as <- _. reflexivity.
  - split; [|exact Hapart].
    apply (Hgone (ex_in "a" 0)). left. reflexivity.
Defined.

(** Three numbers are staged and committed; with a zero in the middle the
    commit fails after the first item and keeps the three staged. *)
Lemma stage_then_commit_witness :
  (add_all ex_add [9] [1; 2; 3] = inl [9; 1; 2; 3]
   /\ commit ex_add (fold_left stage [1; 2; 3] (new_uow (Some [9])))
      = inl {| uow_repo := Some [9; 1; 2; 3]; staged := [] |}
   /\ rollback (fold_left stage [1; 2; 3] (new_uow (Some [9])))
      = new_uow (Some [9]))%nat.
Proof.
  assert (Hadd : (add_all ex_add [9] [1; 2; 3] = inl [9; 1; 2; 3])%nat)
    by reflexivity.
  destruct (stage_then_commit ex_add _ _ _ Hadd)
    as [Hcommit [_ [_ [_ [Hrollback _]]]]].
  split; [exact Hadd|]. split; [exact Hcommit|exact Hrollback].
Defined.

Lemma failed_commit_keeps_staged_witness :
  (add_all ex_add [9] [1] = inl [9; 1]
   /\ ex_add [9; 1] 0 = inr ("zero", [9; 1])
   /\ commit ex_add {| uow_repo := Some [9]; staged := [1; 0; 3] |}
      = inr ("zero", {| uow_repo := Some [9; 1]; staged := [1; 0; 3] |})
   /\ commit ex_add {| uow_repo := Some [9; 1]; staged := [1; 0; 3] |}
      = inr ("zero", {| uow_repo := Some [9; 1; 1]; staged := [1; 0; 3] |}))%nat.
Proof.
  assert (Hpre : (add_all ex_add [9] [1] = inl [9; 1])%nat) by reflexivity.
  assert (Hx : (ex_add [9; 1] 0 = inr ("zero", [9; 1]))%nat) by reflexivity.
  destruct (failed_commit_keeps_staged ex_add _ _ [3%nat] _ _ _ _ Hpre Hx)
    as [Hfail Hretry].
  split; [exact Hpre|]. split; [exact Hx|]. split; [exact Hfail|].
  exact Hretry.
Defined.
End MoreRuns.
